(** * Rendering a molecular-dynamics trajectory into a video

    A shallow embedding of the two scripts of the repository:

    - [src/src/sim.py]: frames are rendered by a process pool into PNG files
      of a scratch directory, the video is assembled from that directory and
      the directory is removed (module [SrcSim]);
    - [src/video/sim.py]: frames are rendered one after the other into
      in-memory pixel buffers and the video is assembled from the list of
      buffers (module [VideoSim]).

    Python exceptions are values of [exn]; a statement that can raise returns
    an [outcome].  The file system and the plotting state are threaded
    explicitly. *)

From Stdlib Require Import ZArith QArith Ascii String DecimalString DecimalN.
From stdpp Require Import base gmap strings list sorting.

Open Scope string_scope.

(** ** Exceptions and outcomes *)

Inductive exn :=
  | ValueError          (* numpy: inhomogeneous shape, reshape of wrong size *)
  | IndexError          (* numpy slicing, [sequence[0]] of an empty sequence *)
  | OSError             (* a failing write, [os.rmdir] of a non-empty directory *)
  | FileNotFoundError   (* a path that does not exist *)
  | IsADirectoryError   (* a file operation applied to a directory *)
  | SizeMismatch        (* moviepy: "ImageSequenceClip requires all images to be the same size" *)
  | BrokenPool.         (* stands for a parent left waiting for a task that
                           never completes; see [gather] *)

Inductive outcome (A : Type) :=
  | Ok (a : A)
  | Raise (e : exn).
Arguments Ok {A} a.
Arguments Raise {A} e.

Definition raised {A} (o : outcome A) : Prop :=
  match o with Ok _ => False | Raise _ => True end.

(** ** String formatting *)

(** [str(n)] for a non-negative integer, [str(z)] for an integer. *)
Definition str_nat (n : N) : string := NilEmpty.string_of_uint (N.to_uint n).
Definition str_int (z : Z) : string := NilZero.string_of_int (Z.to_int z).

(** The format specification [0{width}d] applied to a non-negative integer
    already printed: zeros are added on the left up to [width] characters,
    and a longer string is left as it is. *)
Fixpoint zeros (k : nat) : string :=
  match k with
  | O => EmptyString
  | S k => String "0"%char (zeros k)
  end.
Definition zfill (width : nat) (s : string) : string :=
  zeros (width - String.length s) +:+ s.

(** [f'frame_{i:04d}.png'] *)
Definition frame_file (i : N) : string :=
  "frame_" +:+ zfill 4 (str_nat i) +:+ ".png".
Definition frame_name (i : nat) : string := frame_file (N.of_nat i).

(** [f'Timestep {i * SNAPSHOT_INTERVAL}'] *)
Definition timestep_title (i : nat) (SNAPSHOT_INTERVAL : Z) : string :=
  "Timestep " +:+ str_int (Z.of_nat i * SNAPSHOT_INTERVAL).

(** [os.path.join(a, b)] for a relative [b]. *)
Definition os_path_join (a b : string) : string := a +:+ "/" +:+ b.

Fixpoint strip_prefix (p s : string) : option string :=
  match p with
  | EmptyString => Some s
  | String a p' =>
      match s with
      | EmptyString => None
      | String b s' => if Ascii.eqb a b then strip_prefix p' s' else None
      end
  end.

(** ** The input document *)

(** The scripts start from the parsed JSON document; opening and parsing the
    file is not part of the model. *)

(** A JSON number.  The scripts never compute with the coordinates or the box
    length, they only hand them to the plotting library. *)
Abbreviation number := Q (only parsing).

(** One snapshot as nested lists: rows of coordinates. *)
Abbreviation snapshot := (list (list Q)) (only parsing).

Record SimulationData := {
  box_length : number;
  num_atoms : Z;
  timestep : number;
  total_steps : Z;
  snapshot_interval : Z;
  trajectory : list snapshot
}.

(** ** numpy *)

(** [np.array] of a three-level nested list.  The result is a numeric array
    when the nesting is rectangular: all snapshots have as many rows and all
    rows as many entries.  On a ragged nesting numpy (1.24 and later) raises
    [ValueError]. *)
Definition all_equal (l : list nat) : bool :=
  match l with
  | [] => true
  | n :: l => forallb (Nat.eqb n) l
  end.

Definition rectangular (t : list snapshot) : bool :=
  all_equal (length <$> t) && all_equal (length <$> concat t).

Definition np_array (t : list snapshot) : outcome (list snapshot) :=
  if rectangular t then Ok t else Raise ValueError.

(** [positions[:, k]] on one element of the trajectory array.  A snapshot
    without rows is one-dimensional (the array has shape [(S, 0)]), so two
    indices are too many; a row shorter than [k + 1] is out of bounds. *)
Definition column (k : nat) (positions : snapshot) : outcome (list Q) :=
  match positions with
  | [] => Raise IndexError
  | _ =>
      match mapM (λ row : list Q, row !! k) positions with
      | Some c => Ok c
      | None => Raise IndexError
      end
  end.

(** ** matplotlib: the figure and its 3D axes *)

Record scatter := {
  sc_x : list Q; sc_y : list Q; sc_z : list Q;
  sc_c : string; sc_marker : string; sc_label : string
}.

Record axes := {
  xlim : option (Q * Q); ylim : option (Q * Q); zlim : option (Q * Q);
  xlabel : string; ylabel : string; zlabel : string;
  title : string;
  collections : list scatter;
  legend : option (list string)
}.

(** What a rendering of the figure shows. *)
Record scene := { sc_axes : axes; sc_tight : bool }.

Record figure := {
  canvas_w : N; canvas_h : N;           (* size of the canvas in pixels *)
  tight : bool;                         (* [tight_layout] has been applied *)
  ax : axes;                            (* the one subplot, also [plt.gca()] *)
  drawn : option scene                  (* what [fig.canvas.draw()] last drew *)
}.

Definition empty_axes : axes :=
  {| xlim := None; ylim := None; zlim := None;
     xlabel := EmptyString; ylabel := EmptyString; zlabel := EmptyString;
     title := EmptyString;
     collections := []; legend := None |}.

(** [fig = plt.figure(); ax = fig.add_subplot(111, projection='3d')] with the
    default figure size (6.4in x 4.8in at 100 dpi). *)
Definition plt_figure : figure :=
  {| canvas_w := 640%N; canvas_h := 480%N; tight := false;
     ax := empty_axes; drawn := None |}.

Definition with_ax (g : axes → axes) (f : figure) : figure :=
  {| canvas_w := canvas_w f; canvas_h := canvas_h f; tight := tight f;
     ax := g (ax f); drawn := drawn f |}.

Definition ax_clear : figure → figure := with_ax (λ _, empty_axes).

Definition ax_set_xlim (lo hi : Q) : figure → figure :=
  with_ax (λ a,
    {| xlim := Some (lo, hi); ylim := ylim a; zlim := zlim a;
       xlabel := xlabel a; ylabel := ylabel a; zlabel := zlabel a;
       title := title a; collections := collections a; legend := legend a |}).
Definition ax_set_ylim (lo hi : Q) : figure → figure :=
  with_ax (λ a,
    {| xlim := xlim a; ylim := Some (lo, hi); zlim := zlim a;
       xlabel := xlabel a; ylabel := ylabel a; zlabel := zlabel a;
       title := title a; collections := collections a; legend := legend a |}).
Definition ax_set_zlim (lo hi : Q) : figure → figure :=
  with_ax (λ a,
    {| xlim := xlim a; ylim := ylim a; zlim := Some (lo, hi);
       xlabel := xlabel a; ylabel := ylabel a; zlabel := zlabel a;
       title := title a; collections := collections a; legend := legend a |}).
Definition ax_set_xlabel (s : string) : figure → figure :=
  with_ax (λ a,
    {| xlim := xlim a; ylim := ylim a; zlim := zlim a;
       xlabel := s; ylabel := ylabel a; zlabel := zlabel a;
       title := title a; collections := collections a; legend := legend a |}).
Definition ax_set_ylabel (s : string) : figure → figure :=
  with_ax (λ a,
    {| xlim := xlim a; ylim := ylim a; zlim := zlim a;
       xlabel := xlabel a; ylabel := s; zlabel := zlabel a;
       title := title a; collections := collections a; legend := legend a |}).
Definition ax_set_zlabel (s : string) : figure → figure :=
  with_ax (λ a,
    {| xlim := xlim a; ylim := ylim a; zlim := zlim a;
       xlabel := xlabel a; ylabel := ylabel a; zlabel := s;
       title := title a; collections := collections a; legend := legend a |}).

(** [ax.set_title(s)]; [plt.title(s)] is the same call on the current axes,
    which is [ax]: the figure has no other. *)
Definition ax_set_title (s : string) : figure → figure :=
  with_ax (λ a,
    {| xlim := xlim a; ylim := ylim a; zlim := zlim a;
       xlabel := xlabel a; ylabel := ylabel a; zlabel := zlabel a;
       title := s; collections := collections a; legend := legend a |}).
Definition plt_title : string → figure → figure := ax_set_title.

Definition ax_scatter (xs ys zs : list Q) (c marker label : string)
    : figure → figure :=
  with_ax (λ a,
    {| xlim := xlim a; ylim := ylim a; zlim := zlim a;
       xlabel := xlabel a; ylabel := ylabel a; zlabel := zlabel a;
       title := title a;
       collections := collections a ++ [{| sc_x := xs; sc_y := ys; sc_z := zs;
                                           sc_c := c; sc_marker := marker;
                                           sc_label := label |}];
       legend := legend a |}).

(** [ax.legend()] lists the labels of the artists present at the call. *)
Definition ax_legend : figure → figure :=
  with_ax (λ a,
    {| xlim := xlim a; ylim := ylim a; zlim := zlim a;
       xlabel := xlabel a; ylabel := ylabel a; zlabel := zlabel a;
       title := title a; collections := collections a;
       legend := Some (sc_label <$> collections a) |}).

Definition plt_tight_layout (f : figure) : figure :=
  {| canvas_w := canvas_w f; canvas_h := canvas_h f; tight := true;
     ax := ax f; drawn := drawn f |}.

Definition current_scene (f : figure) : scene :=
  {| sc_axes := ax f; sc_tight := tight f |}.

(** A raster image as [imread] returns it: an array of [img_h] rows,
    [img_w] columns and [img_channels] channels, and what it shows. *)
Record image := {
  img_w : N; img_h : N; img_channels : N;
  img_scene : scene
}.

(** [savefig] writes a PNG with an alpha channel: four channels. *)
Definition png_channels : N := 4.

Definition render (f : figure) : image :=
  {| img_w := canvas_w f; img_h := canvas_h f; img_channels := png_channels;
     img_scene := current_scene f |}.

(** A clip as [ImageSequenceClip] builds it: the pictures in display order
    and the frame rate. *)
Record clip (A : Type) := { clip_frames : list A; clip_fps : nat }.
Arguments clip_frames {A} _.
Arguments clip_fps {A} _.

(** ** [src/src/sim.py]: the parallel, file-based script *)

Module SrcSim.

(** An entry of the scratch directory. *)
Inductive entry :=
  | PngFile (img : image)    (* an image file *)
  | OtherFile                (* a regular file that is not an image *)
  | SubDir.                  (* a directory *)

(** The part of the file system the script touches: the scratch directory
    [temp] of the working directory ([None] when it does not exist, else its
    entries by name) and the output file [argon_simulation.mp4].  The output
    file is described by the clip [write_videofile] was called on ([None]
    when there is no file).  The frames of the file itself are the encoder's
    business and outside the model: moviepy samples the clip at the times
    [np.arange(0, duration, 1/fps)], computed in floating point, so that a
    picture of the clip can come twice in the file. *)
Record World := {
  temp : option (gmap string entry);
  mp4 : option (clip image)
}.

Definition set_temp (t : option (gmap string entry)) (w : World) : World :=
  {| temp := t; mp4 := mp4 w |}.
Definition set_mp4 (v : option (clip image)) (w : World) : World :=
  {| temp := temp w; mp4 := v |}.

(** Statements of the main script: they change the world and return a value
    or raise. *)
Definition script (A : Type) : Type := World → World * outcome A.

Definition ret {A} (a : A) : script A := λ w, (w, Ok a).
Definition throw {A} (e : exn) : script A := λ w, (w, Raise e).
Definition bind {A B} (m : script A) (k : A → script B) : script B :=
  λ w, match m w with
       | (w', Ok a) => k a w'
       | (w', Raise e) => (w', Raise e)
       end.
Definition lift {A} (o : outcome A) : script A := λ w, (w, o).

Notation "'let*' x := m 'in' k" := (bind m (λ x, k))
  (at level 10, x name, m at level 100, k at level 200).

Definition temp_dir : string := "temp".

(** The name of the entry of [temp] a path denotes. *)
Definition in_temp (path : string) : option string :=
  strip_prefix (os_path_join temp_dir EmptyString) path.

(** [os.makedirs(temp_dir, exist_ok=True)] *)
Definition os_makedirs_exist_ok : script unit :=
  λ w, match temp w with
       | Some _ => (w, Ok tt)
       | None => (set_temp (Some ∅) w, Ok tt)
       end.

(** [os.listdir(temp_dir)] *)
Definition os_listdir : script (list string) :=
  λ w, match temp w with
       | Some d => (w, Ok ((map_to_list d).*1))
       | None => (w, Raise FileNotFoundError)
       end.

(** [os.remove(path)] *)
Definition os_remove (path : string) : script unit :=
  λ w, match in_temp path, temp w with
       | Some name, Some d =>
           match d !! name with
           | Some SubDir => (w, Raise IsADirectoryError)
           | Some _ => (set_temp (Some (delete name d)) w, Ok tt)
           | None => (w, Raise FileNotFoundError)
           end
       | _, _ => (w, Raise FileNotFoundError)
       end.

(** [os.rmdir(temp_dir)] *)
Definition os_rmdir : script unit :=
  λ w, match temp w with
       | Some d =>
           if decide (d = ∅) then (set_temp None w, Ok tt)
           else (w, Raise OSError)
       | None => (w, Raise FileNotFoundError)
       end.

Section Run.

(** The environment decides whether writing a file fails (a full disk, an
    encoder that is missing): [savefig_raises path] tells whether
    [plt.savefig(path)] raises, [write_raises frames] whether
    [write_videofile] does. *)
Context (savefig_raises : string → bool).
Context (write_raises : list image → bool).

(** [plt.savefig(path)] of the figure [f]. *)
Definition plt_savefig (path : string) (f : figure) : script unit :=
  λ w, match in_temp path, temp w with
       | Some name, Some d =>
           if savefig_raises path then (w, Raise OSError)
           else match d !! name with
                | Some SubDir => (w, Raise IsADirectoryError)
                | _ => (set_temp (Some (<[name := PngFile (render f)]> d)) w, Ok tt)
                end
       | _, _ => (w, Raise FileNotFoundError)
       end.

(** The module-level names [process_frame] reads. *)
Context (L : number) (SNAPSHOT_INTERVAL : Z).

(** [process_frame(args)], run in a process whose copy of the module-level
    figure is [f]: it returns the figure as the call leaves it, the world and
    the returned path. *)
Definition process_frame (args : nat * snapshot) (f : figure) (w : World)
    : figure * World * outcome string :=
  let '(i, positions) := args in
  let frame_path := os_path_join temp_dir (frame_name i) in
  let f := ax_clear f in
  let f := ax_set_xlim 0 L f in
  let f := ax_set_ylim 0 L f in
  let f := ax_set_zlim 0 L f in
  match column 0 positions, column 1 positions, column 2 positions with
  | Ok xs, Ok ys, Ok zs =>
      let f := ax_scatter xs ys zs "b" "o" "Argon Atoms" f in
      let f := ax_legend f in
      let f := plt_title (timestep_title i SNAPSHOT_INTERVAL) f in
      let f := plt_tight_layout f in
      match plt_savefig frame_path f w with
      | (w', Ok _) => (f, w', Ok frame_path)
      | (w', Raise e) => (f, w', Raise e)
      end
  | Raise e, _, _ | _, Raise e, _ | _, _, Raise e => (f, w, Raise e)
  end.

(** *** The process pool *)

(** One run of the pool: the order in which the tasks complete and the worker
    process that takes each task.  Every worker process starts with its own
    copy of the parent's module-level figure and keeps it from one task to
    the next.  A task writes its file when it completes, so the files appear
    in the scratch directory in the order of completion. *)
Record schedule := {
  completion : list nat;
  worker_of : nat → nat
}.

Record pool_state := {
  figs : gmap nat figure;                 (* the figure of each worker that ran *)
  results : gmap nat (outcome string);    (* what each completed task returned *)
  disk : World
}.

Definition run_task (args : list (nat * snapshot)) (sch : schedule)
    (fig : figure) (st : pool_state) (i : nat) : pool_state :=
  match args !! i with
  | None => st
  | Some a =>
      let k := worker_of sch i in
      let '(f', w', r) := process_frame a (default fig (figs st !! k)) (disk st) in
      {| figs := <[k := f']> (figs st);
         results := <[i := r]> (results st);
         disk := w' |}
  end.

Definition run_tasks (args : list (nat * snapshot)) (sch : schedule)
    (fig : figure) (w : World) : pool_state :=
  foldl (run_task args sch fig)
        {| figs := ∅; results := ∅; disk := w |} (completion sch).

(** The parent takes the results in task order, whatever the order of
    completion; the first task that raised makes the iteration raise.  A task
    without a result is one the parent would wait for forever; a run does not
    return from that, and [BrokenPool] only marks the place: the statements
    about exceptions are about schedules in which the tasks the parent waits
    for complete. *)
Fixpoint gather (res : gmap nat (outcome string)) (idx : list nat)
    : outcome (list string) :=
  match idx with
  | [] => Ok []
  | i :: idx =>
      match res !! i with
      | Some (Ok p) =>
          match gather res idx with
          | Ok ps => Ok (p :: ps)
          | Raise e => Raise e
          end
      | Some (Raise e) => Raise e
      | None => Raise BrokenPool
      end
  end.

(** [list(pool.imap(process_frame, args))] *)
Definition pool_imap (args : list (nat * snapshot)) (sch : schedule)
    (fig : figure) : script (list string) :=
  λ w, let st := run_tasks args sch fig w in
       (disk st, gather (results st) (seq 0 (length args))).

(** *** moviepy *)

(** [imread(path)]: imageio raises [ValueError] on what it cannot read as a
    picture, a directory included. *)
Definition imread (path : string) : script image :=
  λ w, match in_temp path, temp w with
       | Some name, Some d =>
           match d !! name with
           | Some (PngFile img) => (w, Ok img)
           | Some OtherFile => (w, Raise ValueError)
           | Some SubDir => (w, Raise ValueError)
           | None => (w, Raise FileNotFoundError)
           end
       | _, _ => (w, Raise FileNotFoundError)
       end.

(** The shape of the array of a picture: rows, columns, channels. *)
Definition img_shape (img : image) : N * N * N :=
  (img_h img, img_w img, img_channels img).

Fixpoint read_all (size : N * N * N) (paths : list string)
    : script (list image) :=
  match paths with
  | [] => ret []
  | p :: paths =>
      let* img := imread p in
      if decide (img_shape img = size)
      then let* imgs := read_all size paths in ret (img :: imgs)
      else throw SizeMismatch
  end.

(** [ImageSequenceClip(temp_dir, fps)].  Given the name of a folder, moviepy
    takes the pictures of the folder in alphanumerical order: it sorts the
    joined paths of [os.listdir], reads the first picture for the shape of
    its array and raises when a picture has another shape. *)
Definition ImageSequenceClip (fps : nat) : script (clip image) :=
  let* names := os_listdir in
  let sequence := merge_sort String.le (os_path_join temp_dir <$> names) in
  match sequence with
  | [] => throw IndexError
  | first :: _ =>
      let* img := imread first in
      let* imgs := read_all (img_shape img) sequence in
      ret {| clip_frames := imgs; clip_fps := fps |}
  end.

(** [clip.write_videofile('argon_simulation.mp4')]: the output file becomes
    the encoding of the clip; the model records the clip, not the frames the
    encoder samples from it.  [write_raises] stands for an encoder that
    cannot be started (no ffmpeg), which raises before the output file is
    opened; an encoder that fails in the middle of the file is not
    modelled. *)
Definition write_videofile (c : clip image) : script unit :=
  λ w, if write_raises (clip_frames c) then (w, Raise OSError)
       else (set_mp4 (Some c) w, Ok tt).

(** *** The stages of the script *)

Fixpoint remove_all (files : list string) : script unit :=
  match files with
  | [] => ret tt
  | file :: files =>
      let* _ := os_remove (os_path_join temp_dir file) in
      remove_all files
  end.

(** Lines 69-74: the files of the listing are removed one by one, then the
    directory. *)
Definition cleanup : script unit :=
  let* files := os_listdir in
  let* _ := remove_all files in
  os_rmdir.

End Run.

(** Lines 36-59: the parameters are read, the trajectory is converted, the
    scratch directory and the figure are created and the frames are rendered
    by the pool. *)
Definition render_stage (savefig_raises : string → bool)
    (d : SimulationData) (sch : schedule) : script (list string) :=
  let L := box_length d in
  let N := num_atoms d in
  let DT := timestep d in
  let STEPS := total_steps d in
  let SNAPSHOT_INTERVAL := snapshot_interval d in
  let* trajectory := lift (np_array (trajectory d)) in
  let* _ := os_makedirs_exist_ok in
  let fig := plt_figure in
  let args := imap (λ i positions, (i, positions)) trajectory in
  pool_imap savefig_raises L SNAPSHOT_INTERVAL args sch fig.

(** Lines 63-65. *)
Definition assemble_stage (write_raises : list image → bool) : script unit :=
  let* c := ImageSequenceClip 10 in
  write_videofile write_raises c.

(** The script from line 36 on.  [frame_paths] is not used after the pool;
    [plt.close(fig)] and the prints do not change the world. *)
Definition main (savefig_raises : string → bool)
    (write_raises : list image → bool)
    (d : SimulationData) (sch : schedule) : script unit :=
  let* frame_paths := render_stage savefig_raises d sch in
  let* _ := assemble_stage write_raises in
  cleanup.

End SrcSim.

(** ** [src/video/sim.py]: the sequential, in-memory script *)

Module VideoSim.

(** The bytes of a rendering: how many there are and what they show. *)
Record buffer := { buf_len : N; buf_scene : option scene }.

(** A numpy array over such bytes. *)
Record ndarray := { shape : list N; data : buffer }.

(** [fig.canvas.draw()] *)
Definition fig_canvas_draw (f : figure) : figure :=
  {| canvas_w := canvas_w f; canvas_h := canvas_h f; tight := tight f;
     ax := ax f; drawn := Some (current_scene f) |}.

(** [fig.canvas.tostring_rgb()]: three bytes per pixel of the canvas. *)
Definition fig_canvas_tostring_rgb (f : figure) : buffer :=
  {| buf_len := (canvas_w f * canvas_h f * 3)%N; buf_scene := drawn f |}.

(** [fig.canvas.get_width_height()] *)
Definition fig_canvas_get_width_height (f : figure) : N * N :=
  (canvas_w f, canvas_h f).

(** [np.frombuffer(b, dtype='uint8')] *)
Definition np_frombuffer (b : buffer) : ndarray :=
  {| shape := [buf_len b]; data := b |}.

(** [a.reshape(shp)] raises when the sizes differ. *)
Definition reshape (a : ndarray) (shp : list N) : outcome ndarray :=
  if N.eqb (foldr N.mul 1%N shp) (foldr N.mul 1%N (shape a))
  then Ok {| shape := shp; data := data a |}
  else Raise ValueError.

(** Lines 22-30: the figure before the loop. *)
Definition setup_figure (L : number) : figure :=
  let fig := plt_figure in
  let fig := ax_set_xlim 0 L fig in
  let fig := ax_set_ylim 0 L fig in
  let fig := ax_set_zlim 0 L fig in
  let fig := ax_set_xlabel "X (angstrom)" fig in
  let fig := ax_set_ylabel "Y (angstrom)" fig in
  let fig := ax_set_zlabel "Z (angstrom)" fig in
  ax_set_title "Argon System Simulation" fig.

(** Lines 34-49: the loop over [enumerate(trajectory)], from index [i] on,
    with the figure [f] and the frames appended so far. *)
Fixpoint render_loop (L : number) (SNAPSHOT_INTERVAL : Z)
    (i : nat) (rest : list snapshot) (f : figure) (frames : list ndarray)
    : figure * outcome (list ndarray) :=
  match rest with
  | [] => (f, Ok frames)
  | positions :: rest =>
      let f := ax_clear f in
      let f := ax_set_xlim 0 L f in
      let f := ax_set_ylim 0 L f in
      let f := ax_set_zlim 0 L f in
      let f := ax_set_xlabel "X (angstrom)" f in
      let f := ax_set_ylabel "Y (angstrom)" f in
      let f := ax_set_zlabel "Z (angstrom)" f in
      match column 0 positions, column 1 positions, column 2 positions with
      | Ok xs, Ok ys, Ok zs =>
          let f := ax_scatter xs ys zs "b" "o" "Argon Atoms" f in
          let f := ax_legend f in
          let f := plt_title (timestep_title i SNAPSHOT_INTERVAL) f in
          let f := plt_tight_layout f in
          let f := fig_canvas_draw f in
          let frame := np_frombuffer (fig_canvas_tostring_rgb f) in
          let '(width, height) := fig_canvas_get_width_height f in
          match reshape frame [height; width; 3%N] with
          | Ok frame =>
              render_loop L SNAPSHOT_INTERVAL (S i) rest f (frames ++ [frame])
          | Raise e => (f, Raise e)
          end
      | Raise e, _, _ | _, Raise e, _ | _, _, Raise e => (f, Raise e)
      end
  end.

(** [ImageSequenceClip(frames, fps)] on a list of arrays: all of the shape of
    the first. *)
Definition ImageSequenceClip (sequence : list ndarray) (fps : nat)
    : outcome (clip ndarray) :=
  match sequence with
  | [] => Raise IndexError
  | first :: _ =>
      if forallb (λ a, bool_decide (shape a = shape first)) sequence
      then Ok {| clip_frames := sequence; clip_fps := fps |}
      else Raise SizeMismatch
  end.

(** Lines 7-49: the frames of a document. *)
Definition render_frames (d : SimulationData) : outcome (list ndarray) :=
  let L := box_length d in
  let N := num_atoms d in
  let DT := timestep d in
  let STEPS := total_steps d in
  let SNAPSHOT_INTERVAL := snapshot_interval d in
  match np_array (trajectory d) with
  | Ok trajectory =>
      let fig := setup_figure L in
      (render_loop L SNAPSHOT_INTERVAL 0 trajectory fig []).2
  | Raise e => Raise e
  end.

(** The whole script; the world is the output file [argon_simulation.mp4],
    described by the clip [write_videofile] was called on: the frames the
    encoder samples from the clip (at the times
    [np.arange(0, duration, 1/fps)], in floating point) are outside the
    model.  [write_raises] stands for an encoder that cannot be started,
    which raises before the output file is opened; [plt.show()] and the print
    do not change the world. *)
Definition main (write_raises : list ndarray → bool) (d : SimulationData)
    (mp4 : option (clip ndarray)) : option (clip ndarray) * outcome unit :=
  match render_frames d with
  | Ok frames =>
      match ImageSequenceClip frames 10 with
      | Ok c =>
          if write_raises (clip_frames c) then (mp4, Raise OSError)
          else (Some c, Ok tt)
      | Raise e => (mp4, Raise e)
      end
  | Raise e => (mp4, Raise e)
  end.

End VideoSim.

(** ** Vocabulary of the statements *)

(** The column a slice returns when it returns one. *)
Definition col (k : nat) (positions : list (list Q)) : list Q :=
  (λ row : list Q, default 0%Q (row !! k)) <$> positions.

(** A snapshot that [process_frame] can slice: at least one row, at least
    three entries in every row. *)
Definition sliceable (positions : list (list Q)) : Prop :=
  positions ≠ [] ∧ Forall (λ row : list Q, (3 ≤ length row)%nat) positions.

(** Snapshots of [m] rows of three coordinates each. *)
Definition uniform (m : nat) (t : list (list (list Q))) : Prop :=
  Forall (λ s : list (list Q),
            length s = m ∧ Forall (λ row : list Q, length row = 3%nat) s) t.



(** What the frame of snapshot [i] shows. *)
Definition frame_axes (L : Q) (SNAPSHOT_INTERVAL : Z) (i : nat)
    (positions : list (list Q)) : axes :=
  {| xlim := Some (0%Q, L); ylim := Some (0%Q, L); zlim := Some (0%Q, L);
     xlabel := EmptyString; ylabel := EmptyString; zlabel := EmptyString;
     title := timestep_title i SNAPSHOT_INTERVAL;
     collections := [{| sc_x := col 0 positions; sc_y := col 1 positions;
                        sc_z := col 2 positions; sc_c := "b";
                        sc_marker := "o"; sc_label := "Argon Atoms" |}];
     legend := Some ["Argon Atoms"] |}.

(** The image [process_frame] saves for snapshot [i] from a figure whose
    canvas is [w] by [h]. *)
Definition frame_image (w h : N) (L : Q) (SNAPSHOT_INTERVAL : Z) (i : nat)
    (positions : list (list Q)) : image :=
  {| img_w := w; img_h := h; img_channels := png_channels;
     img_scene := {| sc_axes := frame_axes L SNAPSHOT_INTERVAL i positions;
                     sc_tight := true |} |}.

(** The figure an invocation that slices its snapshot leaves behind. *)
Definition figure_after (L : Q) (SNAPSHOT_INTERVAL : Z) (f : figure) (i : nat)
    (positions : list (list Q)) : figure :=
  {| canvas_w := canvas_w f; canvas_h := canvas_h f; tight := true;
     ax := frame_axes L SNAPSHOT_INTERVAL i positions; drawn := drawn f |}.

(** The path of the frame of snapshot [i]. *)
Definition frame_path (i : nat) : string :=
  os_path_join SrcSim.temp_dir (frame_name i).

(** The file the pool writes for snapshot [i]: the workers' figures all have
    the canvas of [plt_figure]. *)
Definition frame_entry (L : Q) (SNAPSHOT_INTERVAL : Z) (i : nat)
    (positions : list (list Q)) : SrcSim.entry :=
  SrcSim.PngFile (frame_image (canvas_w plt_figure) (canvas_h plt_figure)
                              L SNAPSHOT_INTERVAL i positions).

Definition entry_of (L : Q) (SNAPSHOT_INTERVAL : Z) (t : list (list (list Q)))
    (i : nat) : SrcSim.entry :=
  frame_entry L SNAPSHOT_INTERVAL i (default [] (t !! i)).

(** The frames of a trajectory as a directory, and in index order. *)
Definition frames_dir (L : Q) (SNAPSHOT_INTERVAL : Z)
    (t : list (list (list Q))) : gmap string SrcSim.entry :=
  list_to_map
    (imap (λ i positions,
             (frame_name i, frame_entry L SNAPSHOT_INTERVAL i positions)) t).

Definition frame_images (L : Q) (SNAPSHOT_INTERVAL : Z)
    (t : list (list (list Q))) : list image :=
  imap (frame_image (canvas_w plt_figure) (canvas_h plt_figure)
                    L SNAPSHOT_INTERVAL) t.

Definition same_canvas (fs : gmap nat figure) : Prop :=
  map_Forall (λ _ f, canvas_w f = canvas_w plt_figure
                     ∧ canvas_h f = canvas_h plt_figure) fs.

Definition no_subdir_at_frames (t : list (list (list Q)))
    (d : gmap string SrcSim.entry) : Prop :=
  ∀ i, (i < length t)%nat → d !! frame_name i ≠ Some SrcSim.SubDir.

(** The environment lets every frame of a trajectory of [n] snapshots be
    written. *)
Definition savefig_quiet (savefig_raises : string → bool) (n : nat) : Prop :=
  ∀ i, (i < n)%nat → savefig_raises (frame_path i) = false.

(** Every task of [n] completes, in some order. *)
Definition complete (sch : SrcSim.schedule) (n : nat) : Prop :=
  SrcSim.completion sch ≡ₚ seq 0 n.

(** A map filled by a fold over indices. *)
Definition fill `{Countable K} {V : Type} (key : nat → K) (val : nat → V)
    (m : gmap K V) (o : list nat) : gmap K V :=
  foldl (λ m i, <[key i := val i]> m) m o.

(** Neighbouring frame names are in alphabetical order, for [fuel] indices
    from [k] on. *)
Fixpoint adjacent_upto (fuel : nat) (k : N) : bool :=
  match fuel with
  | O => true
  | S fuel =>
      String.leb (frame_file k) (frame_file (N.succ k))
      && adjacent_upto fuel (N.succ k)
  end.

(** What holds of the pool at every moment of a run over the trajectory [t]:
    the workers' figures have the canvas of the parent's, the output file is
    the one [v] the run started with, the scratch directory exists, only
    tasks of the trajectory have results, and a task that returned has
    returned the path of its frame, which the directory holds. *)
Definition pool_inv (L : Q) (SNAPSHOT_INTERVAL : Z) (t : list (list (list Q)))
    (v : option (clip image)) (st : SrcSim.pool_state) : Prop :=
  same_canvas (SrcSim.figs st) ∧
  SrcSim.mp4 (SrcSim.disk st) = v ∧
  ∃ d, SrcSim.temp (SrcSim.disk st) = Some d ∧
    ∀ i r, SrcSim.results st !! i = Some r →
      (i < length t)%nat ∧
      ∀ p, r = Ok p →
        p = frame_path i ∧
        d !! frame_name i = Some (entry_of L SNAPSHOT_INTERVAL t i).

(** What the invocations of [process_frame] of a run returned or raised, by
    task: none when the conversion of the trajectory already raised. *)
Definition invocation_outcomes (savefig_raises : string → bool)
    (d : SimulationData) (sch : SrcSim.schedule) (w : SrcSim.World)
    : gmap nat (outcome string) :=
  match np_array (trajectory d) with
  | Ok t =>
      SrcSim.results
        (SrcSim.run_tasks savefig_raises (box_length d) (snapshot_interval d)
           (imap (λ i positions, (i, positions)) t) sch plt_figure
           (SrcSim.os_makedirs_exist_ok w).1)
  | Raise _ => ∅
  end.

(** The paths of a directory in the order the clip shows them. *)
Definition sorted_paths (dir : gmap string SrcSim.entry) : list string :=
  merge_sort String.le (os_path_join SrcSim.temp_dir <$> (map_to_list dir).*1).

(** [img] is the image stored under [path]. *)
Definition image_at (dir : gmap string SrcSim.entry) (path : string) (img : image) : Prop :=
  ∃ name, path = os_path_join SrcSim.temp_dir name ∧ dir !! name = Some (SrcSim.PngFile img).

(** All entries are pictures whose array has the shape [shp]. *)
Definition images_of_shape (shp : N * N * N) (dir : gmap string SrcSim.entry)
    : Prop :=
  map_Forall (λ _ e, ∃ img, e = SrcSim.PngFile img ∧ SrcSim.img_shape img = shp)
             dir.

(** The shape of the frames [process_frame] saves. *)
Definition frame_shape : N * N * N :=
  (canvas_h plt_figure, canvas_w plt_figure, png_channels).

(** The image of snapshot [i] of the trajectory [t]. *)
Definition image_of (L : Q) (SNAPSHOT_INTERVAL : Z) (t : list (list (list Q)))
    (i : nat) : image :=
  frame_image (canvas_w plt_figure) (canvas_h plt_figure)
              L SNAPSHOT_INTERVAL i (default [] (t !! i)).

(** The scratch directory is absent or empty. *)
Definition fresh (w : SrcSim.World) : Prop := default ∅ (SrcSim.temp w) = ∅.


(** The entry of the scratch directory under a name, if any. *)
Definition entry_at (w : SrcSim.World) (name : string) : option SrcSim.entry :=
  SrcSim.temp w ≫= (.!! name).

(** The frames of the sequential script. *)
Definition seq_axes (L : Q) (SNAPSHOT_INTERVAL : Z) (i : nat)
    (positions : list (list Q)) : axes :=
  {| xlim := Some (0%Q, L); ylim := Some (0%Q, L); zlim := Some (0%Q, L);
     xlabel := "X (angstrom)"; ylabel := "Y (angstrom)";
     zlabel := "Z (angstrom)";
     title := timestep_title i SNAPSHOT_INTERVAL;
     collections := [{| sc_x := col 0 positions; sc_y := col 1 positions;
                        sc_z := col 2 positions; sc_c := "b";
                        sc_marker := "o"; sc_label := "Argon Atoms" |}];
     legend := Some ["Argon Atoms"] |}.

Definition seq_frame (L : Q) (SNAPSHOT_INTERVAL : Z) (w h : N) (i : nat)
    (positions : list (list Q)) : VideoSim.ndarray :=
  {| VideoSim.shape := [h; w; 3%N];
     VideoSim.data :=
       {| VideoSim.buf_len := (w * h * 3)%N;
          VideoSim.buf_scene :=
            Some {| sc_axes := seq_axes L SNAPSHOT_INTERVAL i positions;
                    sc_tight := true |} |} |}.

(** ** Concrete runs *)

(** A run of 10001 snapshots of one atom, completed in index order. *)
Definition long_run : SimulationData :=
  {| box_length := 10; num_atoms := 1; timestep := 1 # 1000;
     total_steps := 10001; snapshot_interval := 1;
     trajectory := replicate (N.to_nat 10001) [[0; 0; 0]]%Q |}.

(** The scenario of the specification: two snapshots of two atoms. *)
Definition scenario : SimulationData :=
  {| box_length := 10; num_atoms := 2; timestep := 1 # 1000;
     total_steps := 20; snapshot_interval := 10;
     trajectory := [ [[1; 1; 1]; [2; 2; 2]]; [[3; 3; 3]; [4; 4; 4]] ]%Q |}.


(** The second task completes first; one worker takes both. *)
Definition reversed : SrcSim.schedule :=
  {| SrcSim.completion := [1; 0]%nat; SrcSim.worker_of := λ _, 0%nat |}.

(** An environment in which no write fails. *)
Definition never {A : Type} : A → bool := λ _, false.

(** An environment in which the frame of snapshot 1 cannot be written. *)
Definition second_frame_fails (path : string) : bool :=
  String.eqb path "temp/frame_0001.png".

Definition no_scratch : SrcSim.World :=
  {| SrcSim.temp := None; SrcSim.mp4 := None |}.

Definition empty_scratch : SrcSim.World :=
  {| SrcSim.temp := Some ∅; SrcSim.mp4 := None |}.

(** A scratch directory left with a small picture by someone else. *)
Definition old_picture : image :=
  {| img_w := 10%N; img_h := 10%N; img_channels := 4%N;
     img_scene := {| sc_axes := empty_axes; sc_tight := false |} |}.

Definition stale_scratch : SrcSim.World :=
  {| SrcSim.temp := Some {[ "old.png" := SrcSim.PngFile old_picture ]};
     SrcSim.mp4 := None |}.

(** The world after the rendering stage of the scenario on that directory. *)
Definition stale_rendered : SrcSim.World :=
  (SrcSim.render_stage never scenario reversed stale_scratch).1.

(** A scratch directory with one frame and a file that is no frame. *)
Definition mixed_scratch : SrcSim.World :=
  {| SrcSim.temp := Some {[ "frame_0000.png" := SrcSim.PngFile old_picture;
                            "notes.txt" := SrcSim.OtherFile ]};
     SrcSim.mp4 := None |}.

(** ** Further concrete runs *)

(** A picture of the shape of the frames (640 by 480, four channels) left in
    the scratch directory by an earlier run. *)
Definition leftover_picture : image :=
  {| img_w := 640%N; img_h := 480%N; img_channels := 4%N;
     img_scene := {| sc_axes := empty_axes; sc_tight := false |} |}.

Definition leftover_scratch : SrcSim.World :=
  {| SrcSim.temp := Some {[ "cover.png" := SrcSim.PngFile leftover_picture ]};
     SrcSim.mp4 := None |}.

(** A scratch directory that holds a file that is no picture. *)
Definition notes_scratch : SrcSim.World :=
  {| SrcSim.temp := Some {[ "notes.txt" := SrcSim.OtherFile ]};
     SrcSim.mp4 := None |}.


(** The scenario without any snapshot. *)
Definition no_snapshots : SimulationData :=
  {| box_length := 10; num_atoms := 2; timestep := 1 # 1000;
     total_steps := 0; snapshot_interval := 10; trajectory := [] |}.

(** The scenario with two coordinates per atom. *)
Definition flat_scenario : SimulationData :=
  {| box_length := 10; num_atoms := 2; timestep := 1 # 1000;
     total_steps := 20; snapshot_interval := 10;
     trajectory := [ [[1; 1]; [2; 2]]; [[3; 3]; [4; 4]] ]%Q |}.

(** An environment in which the frame of snapshot 0 cannot be written. *)
Definition first_frame_fails (path : string) : bool :=
  String.eqb path "temp/frame_0000.png".

(** A scratch directory in which a sub-directory has the name of the frame of
    snapshot 1. *)
Definition blocked_scratch : SrcSim.World :=
  {| SrcSim.temp := Some {[ "frame_0001.png" := SrcSim.SubDir ]};
     SrcSim.mp4 := None |}.


(** A picture of the size of the canvas without alpha channel, left in the
    scratch directory under another name. *)
Definition rgb_picture : image :=
  {| img_w := 640%N; img_h := 480%N; img_channels := 3%N;
     img_scene := {| sc_axes := empty_axes; sc_tight := false |} |}.

Definition rgb_scratch : SrcSim.World :=
  {| SrcSim.temp := Some {[ "cover.png" := SrcSim.PngFile rgb_picture ]};
     SrcSim.mp4 := None |}.

(** A directory that holds pictures only. *)
Definition pictures_only (dir : gmap string SrcSim.entry) : Prop :=
  map_Forall (λ _ e, ∃ img, e = SrcSim.PngFile img) dir.
(** ** Facts on strings *)

Lemma append_nil (b : string) : EmptyString +:+ b = b.
Proof. reflexivity. Qed.

Lemma append_cons (c : ascii) (a b : string) :
  String c a +:+ b = String c (a +:+ b).
Proof. reflexivity. Qed.

Lemma append_length (a b : string) :
  String.length (a +:+ b) = String.length a + String.length b.
Proof.
  induction a as [|c a IH]; [done|]. rewrite append_cons. simpl. by rewrite IH.
Qed.

Lemma append_inj_r (s a b : string) : a +:+ s = b +:+ s → a = b.
Proof.
  revert b. induction a as [|c a IH]; intros [|c' b] H.
  - done.
  - apply (f_equal String.length) in H.
    rewrite !append_length in H. simpl in H. lia.
  - apply (f_equal String.length) in H.
    rewrite !append_length in H. simpl in H. lia.
  - rewrite !append_cons in H. injection H as -> H. f_equal. by apply IH.
Qed.

Lemma compare_append_l (p a b : string) :
  ((p +:+ a) ?= (p +:+ b))%string = (a ?= b)%string.
Proof.
  induction p as [|c p IH]; [done|]. rewrite !append_cons. simpl.
  unfold Ascii.compare. by rewrite N.compare_refl.
Qed.

Lemma le_append_l (p a b : string) :
  String.le (p +:+ a) (p +:+ b) ↔ String.le a b.
Proof. unfold String.le, String.leb. by rewrite compare_append_l. Qed.

Lemma strip_prefix_append (p s : string) : strip_prefix p (p +:+ s) = Some s.
Proof.
  induction p as [|c p IH]; [done|]. rewrite append_cons. simpl.
  by rewrite Ascii.eqb_refl.
Qed.

Lemma zeros_uint (k : nat) (d : Decimal.uint) :
  zeros k +:+ NilEmpty.string_of_uint d
  = NilEmpty.string_of_uint (Nat.iter k Decimal.D0 d).
Proof.
  induction k as [|k IH]; [done|]. simpl. by rewrite append_cons, IH.
Qed.

Lemma of_uint_zeros (k : nat) (d : Decimal.uint) :
  N.of_uint (Nat.iter k Decimal.D0 d) = N.of_uint d.
Proof. induction k as [|k IH]; simpl; [done | by rewrite <- IH]. Qed.

Lemma string_of_uint_inj (d d' : Decimal.uint) :
  NilEmpty.string_of_uint d = NilEmpty.string_of_uint d' → d = d'.
Proof.
  intros H. apply (f_equal NilEmpty.uint_of_string) in H.
  rewrite !NilEmpty.usu in H. congruence.
Qed.

Lemma zfill_str_nat_inj (width : nat) (i j : N) :
  zfill width (str_nat i) = zfill width (str_nat j) → i = j.
Proof.
  unfold zfill, str_nat. rewrite !zeros_uint. intros H%string_of_uint_inj.
  apply (f_equal N.of_uint) in H.
  by rewrite !of_uint_zeros, !DecimalN.Unsigned.of_to in H.
Qed.

Lemma frame_file_inj (i j : N) : frame_file i = frame_file j → i = j.
Proof.
  unfold frame_file. intros H%(inj (String.app _))%append_inj_r.
  by apply zfill_str_nat_inj in H.
Qed.

Global Instance frame_name_inj : Inj (=) (=) frame_name.
Proof. intros i j H%frame_file_inj. lia. Qed.

Global Instance os_path_join_inj (a : string) : Inj (=) (=) (os_path_join a).
Proof. intros x y H. unfold os_path_join in H. by do 2 apply (inj (String.app _)) in H. Qed.

Lemma adjacent_upto_spec (fuel : nat) (k j : N) :
  adjacent_upto fuel k = true →
  (k ≤ j < k + N.of_nat fuel)%N →
  String.le (frame_file j) (frame_file (N.succ j)).
Proof.
  revert k. induction fuel as [|fuel IH]; intros k H Hj; [lia|].
  simpl in H. apply andb_true_iff in H as [H1 H2].
  destruct (decide (j = k)) as [->|Hne].
  - unfold String.le. by rewrite H1.
  - apply (IH (N.succ k)); [done | lia].
Qed.

Lemma adjacent_frames : adjacent_upto (N.to_nat 9999) 0 = true.
Proof. vm_compute. reflexivity. Qed.

Lemma frame_file_mono (i j : N) :
  (i ≤ j < 10000)%N → String.le (frame_file i) (frame_file j).
Proof.
  intros [Hij Hj]. revert Hj. pattern j. apply (N.right_induction) with (z := i); [solve_proper | | | done].
  - done.
  - intros n Hn IH Hs. etrans; [apply IH; lia|].
    apply (adjacent_upto_spec _ 0 n adjacent_frames). lia.
Qed.

Lemma frame_name_mono (i j : nat) :
  (i ≤ j)%nat → (N.of_nat j < 10000)%N → String.le (frame_name i) (frame_name j).
Proof. intros ??. apply frame_file_mono. lia. Qed.

(** ** Facts on slicing *)

Lemma mapM_lookup_col (k : nat) (positions : list (list Q)) :
  Forall (λ row : list Q, (k < length row)%nat) positions →
  mapM (λ row : list Q, row !! k) positions = Some (col k positions).
Proof.
  intros H. apply mapM_Some. unfold col. apply Forall2_fmap_r.
  induction H as [|row rows Hk _ IH]; constructor; [|done].
  apply lookup_lt_is_Some_2 in Hk as [x Hx]. simpl. by rewrite Hx.
Qed.

Lemma column_sliceable (k : nat) (positions : list (list Q)) :
  (k < 3)%nat → sliceable positions →
  column k positions = Ok (col k positions).
Proof.
  intros Hk [Hne Hrows]. unfold column. destruct positions as [|row rows]; [done|].
  rewrite mapM_lookup_col; [done|].
  eapply Forall_impl; [exact Hrows|]. simpl. lia.
Qed.

Lemma all_equal_const (c : nat) (l : list nat) :
  Forall (λ x, x = c) l → all_equal l = true.
Proof.
  intros H. destruct l as [|x l]; [done|]. simpl.
  apply Forall_cons in H as [-> H]. apply forallb_forall. intros y Hy.
  apply Nat.eqb_eq. rewrite Forall_forall in H. symmetry. apply H.
  by apply list_elem_of_In.
Qed.

Lemma uniform_rectangular (m : nat) (t : list (list (list Q))) :
  uniform m t → rectangular t = true.
Proof.
  intros H. unfold rectangular. apply andb_true_iff. split.
  - apply (all_equal_const m). apply Forall_fmap.
    eapply Forall_impl; [exact H|]. by intros s [? _].
  - apply (all_equal_const 3). apply Forall_fmap. apply Forall_concat.
    eapply Forall_impl; [exact H|]. by intros s [_ ?].
Qed.

Lemma uniform_sliceable (m : nat) (t : list (list (list Q))) :
  (0 < m)%nat → uniform m t → Forall sliceable t.
Proof.
  intros Hm H. eapply Forall_impl; [exact H|]. intros s [Hlen Hrows]. split.
  - intros ->. simpl in Hlen. lia.
  - eapply Forall_impl; [exact Hrows|]. simpl. lia.
Qed.

(** ** One invocation of [process_frame] *)

Section ProcessFrame.
Import SrcSim.
Context (savefig_raises : string → bool) (L : Q) (SNAPSHOT_INTERVAL : Z).

Local Abbreviation process_frame := (process_frame savefig_raises L SNAPSHOT_INTERVAL).

Lemma in_temp_join (name : string) : in_temp (os_path_join temp_dir name) = Some name.
Proof. reflexivity. Qed.

Lemma process_frame_ok (i : nat) (positions : list (list Q)) (f : figure)
    (w : World) (d : gmap string entry) :
  sliceable positions →
  temp w = Some d →
  savefig_raises (frame_path i) = false →
  d !! frame_name i ≠ Some SubDir →
  process_frame (i, positions) f w =
    (figure_after L SNAPSHOT_INTERVAL f i positions,
     set_temp (Some (<[frame_name i :=
         PngFile (frame_image (canvas_w f) (canvas_h f) L SNAPSHOT_INTERVAL i positions)]> d)) w,
     Ok (frame_path i)).
Proof.
  intros Hs Hd Hsave Hdir. unfold SrcSim.process_frame.
  rewrite !column_sliceable by (done || lia).
  unfold plt_savefig. fold (frame_path i). unfold frame_path at 1.
  rewrite in_temp_join, Hd, Hsave.
  destruct (d !! frame_name i) as [[]|] eqn:E; try done.
Qed.
End ProcessFrame.

(** ** Maps filled by a fold *)

Section FoldInsert.
Context `{Countable K} {V : Type} (key : nat → K) `{!Inj (=) (=) key} (val : nat → V).

Lemma fill_snoc (m : gmap K V) (o : list nat) (i : nat) :
  fill key val m (o ++ [i]) = <[key i := val i]> (fill key val m o).
Proof. unfold fill. by rewrite foldl_snoc. Qed.

Lemma lookup_fill_in (m : gmap K V) (o : list nat) (i : nat) :
  i ∈ o → fill key val m o !! key i = Some (val i).
Proof.
  induction o as [|j o IH] using rev_ind; [by intros ?%elem_of_nil|].
  rewrite fill_snoc. intros [Hi | ->%list_elem_of_singleton]%elem_of_app.
  - destruct (decide (j = i)) as [->|Hne]; [by rewrite lookup_insert_eq|].
    rewrite lookup_insert_ne; [by apply IH|]. by intros ?%(inj key).
  - by rewrite lookup_insert_eq.
Qed.

Lemma lookup_fill_notin (m : gmap K V) (o : list nat) (k : K) :
  (∀ i, i ∈ o → key i ≠ k) → fill key val m o !! k = m !! k.
Proof.
  induction o as [|j o IH] using rev_ind; [done|].
  intros Hk. rewrite fill_snoc, lookup_insert_ne.
  - apply IH. intros i Hi. apply Hk, elem_of_app. by left.
  - apply Hk, elem_of_app. right. by apply list_elem_of_singleton.
Qed.

Lemma key_cases (o : list nat) (k : K) :
  (∃ i, i ∈ o ∧ key i = k) ∨ (∀ i, i ∈ o → key i ≠ k).
Proof.
  destruct (decide (k ∈ key <$> o)) as [(i & -> & Hi)%list_elem_of_fmap|Hno].
  - left. by exists i.
  - right. intros i Hi <-. apply Hno, list_elem_of_fmap. by exists i.
Qed.

(** The order of the insertions does not matter. *)
Lemma fill_permutation (m : gmap K V) (o o' : list nat) :
  o ≡ₚ o' → fill key val m o = fill key val m o'.
Proof.
  intros Hp. apply map_eq. intros k.
  destruct (key_cases o k) as [(i & Hi & <-)|Hno].
  - rewrite !lookup_fill_in; [done| by rewrite <- Hp | done].
  - rewrite !lookup_fill_notin; [done| | done].
    intros i Hi. apply Hno. by rewrite Hp.
Qed.

Lemma fill_list_to_map (m : gmap K V) (o : list nat) :
  fill key val m o = list_to_map ((λ i, (key i, val i)) <$> o) ∪ m.
Proof.
  apply map_eq. intros k.
  destruct (key_cases o k) as [(i & Hi & <-)|Hno].
  - rewrite lookup_fill_in by done. symmetry. apply lookup_union_Some_l.
    apply elem_of_list_to_map_1'.
    + intros v' (j & [= ->%(inj key) ->] & Hj)%list_elem_of_fmap. done.
    + apply list_elem_of_fmap. by exists i.
  - rewrite lookup_fill_notin by done. symmetry. apply lookup_union_r.
    apply not_elem_of_list_to_map_1. rewrite <- list_fmap_compose.
    intros (i & -> & Hi)%list_elem_of_fmap. by apply (Hno i).
Qed.
End FoldInsert.

(** ** The process pool *)

Section Pool.
Import SrcSim.
Context (savefig_raises : string → bool) (L : Q) (SNAPSHOT_INTERVAL : Z).
Context (t : list (list (list Q))).

Local Abbreviation args := (imap (λ (i : nat) (positions : list (list Q)), (i, positions)) t).

Lemma args_lookup (i : nat) :
  args !! i = (λ positions, (i, positions)) <$> t !! i.
Proof. by rewrite list_lookup_imap. Qed.

Lemma imap_as_seq {B} (g : nat → list (list Q) → B) :
  imap g t = (λ i, g i (default [] (t !! i))) <$> seq 0 (length t).
Proof.
  apply list_eq. intros i. rewrite list_lookup_imap, list_lookup_fmap.
  destruct (t !! i) as [p|] eqn:E.
  - rewrite lookup_seq_lt by (by eapply lookup_lt_Some). simpl. by rewrite E.
  - rewrite lookup_seq_ge by (by apply lookup_ge_None). done.
Qed.

Lemma frames_dir_fill (o : list nat) (d : gmap string entry) :
  o ≡ₚ seq 0 (length t) →
  fill frame_name (entry_of L SNAPSHOT_INTERVAL t) d o = frames_dir L SNAPSHOT_INTERVAL t ∪ d.
Proof.
  intros Hp.
  rewrite (fill_permutation frame_name (entry_of L SNAPSHOT_INTERVAL t) d o _ Hp).
  rewrite (fill_list_to_map frame_name (entry_of L SNAPSHOT_INTERVAL t)).
  unfold frames_dir. rewrite imap_as_seq. reflexivity.
Qed.

Lemma run_task_ok (sch : schedule) (st : pool_state) (i : nat)
    (d : gmap string entry) :
  Forall sliceable t →
  savefig_raises (frame_path i) = false →
  (i < length t)%nat →
  temp (disk st) = Some d →
  d !! frame_name i ≠ Some SubDir →
  same_canvas (figs st) →
  ∃ f, canvas_w f = canvas_w plt_figure ∧ canvas_h f = canvas_h plt_figure ∧
    run_task savefig_raises L SNAPSHOT_INTERVAL args sch plt_figure st i =
    {| figs := <[worker_of sch i := f]> (figs st);
       results := <[i := Ok (frame_path i)]> (results st);
       disk := set_temp (Some (<[frame_name i := entry_of L SNAPSHOT_INTERVAL t i]> d)) (disk st) |}.
Proof.
  intros Hs Hsave Hi Hd Hsub Hfs. unfold run_task. rewrite args_lookup.
  destruct (t !! i) as [positions|] eqn:Et; [|by apply lookup_ge_None in Et; lia].
  assert (Hfig : canvas_w (default plt_figure (figs st !! worker_of sch i)) = canvas_w plt_figure
               ∧ canvas_h (default plt_figure (figs st !! worker_of sch i)) = canvas_h plt_figure).
  { destruct (figs st !! worker_of sch i) as [f|] eqn:Ef; [|done]. by apply (Hfs _ _ Ef). }
  destruct Hfig as [Hw Hh]. cbn [fmap option_fmap option_map].
  erewrite process_frame_ok; [| | done | by apply Hsave | by apply Hsub].
  2:{ rewrite Forall_forall in Hs. apply Hs. by eapply list_elem_of_lookup_2. }
  rewrite Hw, Hh. eexists. split_and!; [| |unfold entry_of, frame_entry; rewrite Et; reflexivity]; done.
Qed.

Lemma run_tasks_fold (sch : schedule) (o : list nat) (st : pool_state)
    (d : gmap string entry) :
  Forall sliceable t →
  (∀ i, (i < length t)%nat → savefig_raises (frame_path i) = false) →
  Forall (λ i, (i < length t)%nat) o →
  temp (disk st) = Some d →
  no_subdir_at_frames t d →
  same_canvas (figs st) →
  ∃ fs, same_canvas fs ∧
    foldl (run_task savefig_raises L SNAPSHOT_INTERVAL args sch plt_figure) st o =
    {| figs := fs;
       results := fill id (λ i, Ok (frame_path i)) (results st) o;
       disk := set_temp (Some (fill frame_name (entry_of L SNAPSHOT_INTERVAL t) d o)) (disk st) |}.
Proof.
  intros Hs Hsave Ho. revert st d.
  induction Ho as [|i o Hi Ho IH]; intros st d Hd Hsub Hfs.
  { exists (figs st). split; [done|]. destruct st as [? ? [? ?]]. simpl in *. by subst. }
  cbn [foldl].
  destruct (run_task_ok sch st i d) as (f & Hw & Hh & ->); [by auto..|].
  match goal with
  | |- context [foldl _ ?s o] =>
      destruct (IH s (<[frame_name i := entry_of L SNAPSHOT_INTERVAL t i]> d)) as (fs & Hfs' & ->)
  end.
  - done.
  - intros j Hj. destruct (decide (i = j)) as [->|Hne].
    + by rewrite lookup_insert_eq.
    + rewrite lookup_insert_ne; [by apply Hsub|]. by intros ?%(inj frame_name).
  - simpl. by apply map_Forall_insert_2.
  - exists fs. split; [done|]. reflexivity.
Qed.
End Pool.

Section RenderStage.
Import SrcSim.

Lemma gather_ok (res : gmap nat (outcome string)) (g : nat → string) (idx : list nat) :
  (∀ i, i ∈ idx → res !! i = Some (Ok (g i))) →
  gather res idx = Ok (g <$> idx).
Proof.
  induction idx as [|i idx IH]; intros Hres; [done|].
  simpl. rewrite (Hres i) by left. rewrite IH; [done|].
  intros j Hj. apply Hres. by right.
Qed.

(** A failed task makes the iteration over the results raise. *)
Lemma gather_raises (res : gmap nat (outcome string)) (idx : list nat) (i : nat) (e : exn) :
  i ∈ idx → res !! i = Some (Raise e) → raised (gather res idx).
Proof.
  induction idx as [|j idx IH]; intros Hi Hres; [by apply elem_of_nil in Hi|].
  simpl. apply elem_of_cons in Hi as [->|Hi].
  - by rewrite Hres.
  - destruct (res !! j) as [[p|e']|]; [|done..].
    specialize (IH Hi Hres). by destruct (gather res idx).
Qed.

(** The iteration raises the exception of the first task, in task order,
    that raised. *)
Lemma gather_first (res : gmap nat (outcome string)) (before after : list nat)
    (i : nat) (e : exn) :
  (∀ j, j ∈ before → ∃ p, res !! j = Some (Ok p)) →
  res !! i = Some (Raise e) →
  gather res (before ++ i :: after) = Raise e.
Proof.
  induction before as [|j before IH]; intros Hb Hi; simpl.
  - by rewrite Hi.
  - destruct (Hb j) as [p ->]; [by left|].
    rewrite IH; [done | | done]. intros k Hk. apply Hb. by right.
Qed.


Lemma imap_length_args (t : list (list (list Q))) :
  length (imap (λ (i : nat) (positions : list (list Q)), (i, positions)) t) = length t.
Proof. apply length_imap. Qed.

Lemma render_stage_ok (savefig_raises : string → bool) (d : SimulationData)
    (sch : schedule) (w0 : World) (m : nat) :
  (0 < m)%nat →
  uniform m (trajectory d) →
  completion sch ≡ₚ seq 0 (length (trajectory d)) →
  (∀ i, (i < length (trajectory d))%nat → savefig_raises (frame_path i) = false) →
  no_subdir_at_frames (trajectory d) (default ∅ (temp w0)) →
  render_stage savefig_raises d sch w0 =
    (set_temp (Some (frames_dir (box_length d) (snapshot_interval d) (trajectory d)
                     ∪ default ∅ (temp w0))) w0,
     Ok (frame_path <$> seq 0 (length (trajectory d)))).
Proof.
  intros Hm Hu Hp Hsave Hsub. unfold render_stage, bind, lift.
  unfold np_array. rewrite (uniform_rectangular m) by done.
  assert (Hw1 : os_makedirs_exist_ok w0 = (set_temp (Some (default ∅ (temp w0))) w0, Ok tt)).
  { unfold os_makedirs_exist_ok. destruct w0 as [[dir|] v]; reflexivity. }
  rewrite Hw1. unfold pool_imap, run_tasks.
  edestruct (run_tasks_fold savefig_raises (box_length d) (snapshot_interval d)
               (trajectory d) sch (completion sch)) as (fs & _ & ->);
    [by eapply uniform_sliceable | done | | reflexivity | done | | ].
  - rewrite Hp. apply Forall_forall. intros i Hi%elem_of_seq. lia.
  - intros k f Hk. simpl in Hk. by rewrite lookup_empty in Hk.
  - simpl. f_equal.
    + rewrite frames_dir_fill by done. reflexivity.
    + rewrite imap_length_args. apply gather_ok. intros i Hi.
      apply (lookup_fill_in id (λ i, Ok (frame_path i))). by rewrite Hp.
Qed.
End RenderStage.

(** ** The pool in general *)

Section ProcessFrameCases.
Import SrcSim.
Context (savefig_raises : string → bool) (L : Q) (SNAPSHOT_INTERVAL : Z).

Lemma column_Ok_col (k : nat) (positions : list (list Q)) (xs : list Q) :
  column k positions = Ok xs → xs = col k positions.
Proof.
  unfold column. destruct positions as [|row rows]; [done|].
  destruct (mapM _ _) as [c|] eqn:E; [|done]. intros [= <-].
  apply mapM_Some in E. unfold col. revert E. generalize (row :: rows).
  intros l E. induction E as [|r y l c Hy _ IH]; [done|].
  cbn. rewrite Hy. simpl. by f_equal.
Qed.

(** What an invocation does, whatever it is given: the canvas and the output
    file are left alone; if it raises, the scratch directory is as before; if
    it returns, it returns the path of frame [i] and has written that frame;
    what it returns or raises is what it would on the figure as created. *)
Lemma process_frame_cases (i : nat) (positions : list (list Q)) (f : figure) (w : World) :
  ∃ f' w' r,
    process_frame savefig_raises L SNAPSHOT_INTERVAL (i, positions) f w = (f', w', r) ∧
    canvas_w f' = canvas_w f ∧ canvas_h f' = canvas_h f ∧
    r = (process_frame savefig_raises L SNAPSHOT_INTERVAL (i, positions) plt_figure w).2 ∧
    match r with
    | Raise _ => w' = w
    | Ok p =>
        p = frame_path i ∧
        ∃ d, temp w = Some d ∧
             w' = set_temp (Some (<[frame_name i :=
                     PngFile (frame_image (canvas_w f) (canvas_h f)
                                L SNAPSHOT_INTERVAL i positions)]> d)) w
    end.
Proof.
  unfold process_frame.
  destruct (column 0 positions) as [xs|e0] eqn:E0;
    [|eexists _, _, _; split_and!; [reflexivity|done..]].
  destruct (column 1 positions) as [ys|e1] eqn:E1;
    [|eexists _, _, _; split_and!; [reflexivity|done..]].
  destruct (column 2 positions) as [zs|e2] eqn:E2;
    [|eexists _, _, _; split_and!; [reflexivity|done..]].
  apply column_Ok_col in E0, E1, E2. subst xs ys zs.
  unfold plt_savefig. rewrite in_temp_join.
  destruct (temp w) as [d|] eqn:Ed;
    [|eexists _, _, _; split_and!; [reflexivity|done..]].
  destruct (savefig_raises _);
    [eexists _, _, _; split_and!; [reflexivity|done..]|].
  destruct (d !! frame_name i) as [[]|] eqn:E;
    eexists _, _, _; (split_and!; [reflexivity|try done..]);
    (split; [done|]); by exists d.
Qed.
End ProcessFrameCases.

Section PoolInvariant.
Import SrcSim.
Context (savefig_raises : string → bool) (L : Q) (SNAPSHOT_INTERVAL : Z).
Context (t : list (list (list Q))) (sch : schedule) (v : option (clip image)).

Local Abbreviation args := (imap (λ (i : nat) (positions : list (list Q)), (i, positions)) t).
Local Abbreviation step := (run_task savefig_raises L SNAPSHOT_INTERVAL args sch plt_figure).

Lemma run_task_inv (st : pool_state) (i : nat) :
  pool_inv L SNAPSHOT_INTERVAL t v st →
  pool_inv L SNAPSHOT_INTERVAL t v (step st i).
Proof.
  intros Hinv. unfold run_task. rewrite args_lookup.
  destruct (t !! i) as [positions|] eqn:Et; [|exact Hinv].
  destruct Hinv as (Hfs & Hv & d & Hd & Hres).
  cbn [fmap option_fmap option_map].
  destruct (process_frame_cases savefig_raises L SNAPSHOT_INTERVAL i positions
              (default plt_figure (figs st !! worker_of sch i)) (disk st))
    as (f' & w' & r & -> & Hw & Hh & _ & Hr).
  assert (Hcanvas : canvas_w (default plt_figure (figs st !! worker_of sch i)) = canvas_w plt_figure
                  ∧ canvas_h (default plt_figure (figs st !! worker_of sch i)) = canvas_h plt_figure).
  { destruct (figs st !! worker_of sch i) as [f|] eqn:Ef; [|done].
    by apply (Hfs _ _ Ef). }
  destruct Hcanvas as [Hcw Hch]. rewrite Hcw, Hch in *.
  assert (Hi : (i < length t)%nat) by (by eapply lookup_lt_Some).
  split; [by apply map_Forall_insert_2|]. simpl.
  destruct r as [p|e].
  - destruct Hr as (-> & d1 & Hd1 & ->). rewrite Hd in Hd1. injection Hd1 as <-.
    split; [done|]. eexists. split; [reflexivity|].
    intros j r. destruct (decide (i = j)) as [<-|Hne].
    + rewrite lookup_insert_eq. intros [= <-]. split; [done|]. intros p [= <-].
      split; [done|]. rewrite lookup_insert_eq. unfold entry_of, frame_entry.
      by rewrite Et.
    + rewrite lookup_insert_ne by done. intros Hj.
      destruct (Hres _ _ Hj) as [Hlt Hp]. split; [done|].
      intros p ->. destruct (Hp _ eq_refl) as [-> Hfile]. split; [done|].
      rewrite lookup_insert_ne; [done|]. by intros ?%(inj frame_name).
  - subst w'. split; [done|]. exists d. split; [done|].
    intros j r. destruct (decide (i = j)) as [<-|Hne].
    + rewrite lookup_insert_eq. intros [= <-]. split; [done|]. by intros p [=].
    + rewrite lookup_insert_ne by done. apply Hres.
Qed.

Lemma run_tasks_inv (o : list nat) (st : pool_state) :
  pool_inv L SNAPSHOT_INTERVAL t v st →
  pool_inv L SNAPSHOT_INTERVAL t v (foldl step st o).
Proof.
  revert st. induction o as [|i o IH]; intros st Hst; [done|].
  cbn [foldl]. by apply IH, run_task_inv.
Qed.
End PoolInvariant.

Section RenderStageGeneral.
Import SrcSim.

Lemma gather_Ok_inv (res : gmap nat (outcome string)) (idx : list nat) (ps : list string) :
  gather res idx = Ok ps → Forall2 (λ i p, res !! i = Some (Ok p)) idx ps.
Proof.
  revert ps. induction idx as [|i idx IH]; intros ps; simpl.
  - intros [= <-]. constructor.
  - destruct (res !! i) as [[p|e]|] eqn:E; [|done..].
    destruct (gather res idx) as [ps'|e]; [|done]. intros [= <-].
    constructor; [done | by apply IH].
Qed.

Lemma makedirs_spec (w : World) :
  os_makedirs_exist_ok w = (set_temp (Some (default ∅ (temp w))) w, Ok tt).
Proof. unfold os_makedirs_exist_ok. destruct w as [[dir|] v]; reflexivity. Qed.

Lemma pool_inv_start (L : Q) (SNAPSHOT_INTERVAL : Z) (t : list (list (list Q)))
    (w : World) (d : gmap string entry) :
  temp w = Some d →
  pool_inv L SNAPSHOT_INTERVAL t (mp4 w) {| figs := ∅; results := ∅; disk := w |}.
Proof.
  intros Hd. split; [|split; [done|]].
  - intros k f Hk. simpl in Hk. by rewrite lookup_empty in Hk.
  - exists d. split; [done|]. intros i r Hi. simpl in Hi. by rewrite lookup_empty in Hi.
Qed.

(** The rendering stage, whatever the document, the schedule and the world:
    the output file is left alone; if the stage returns, it returns the paths
    of the frames in index order, one per snapshot, and the scratch directory
    holds the frame of every snapshot. *)
Lemma render_stage_spec (savefig_raises : string → bool) (d : SimulationData)
    (sch : schedule) (w0 : World) :
  ∃ w1 r,
    render_stage savefig_raises d sch w0 = (w1, r) ∧
    mp4 w1 = mp4 w0 ∧
    ∀ paths, r = Ok paths →
      paths = frame_path <$> seq 0 (length (trajectory d)) ∧
      ∃ dir, temp w1 = Some dir ∧
        ∀ i, (i < length (trajectory d))%nat →
          dir !! frame_name i =
            Some (entry_of (box_length d) (snapshot_interval d) (trajectory d) i).
Proof.
  unfold render_stage, bind, lift, np_array.
  destruct (rectangular (trajectory d)); [|by eexists _, _].
  rewrite makedirs_spec. unfold pool_imap, run_tasks.
  eexists _, _. split; [reflexivity|].
  pose proof (run_tasks_inv savefig_raises (box_length d) (snapshot_interval d)
                (trajectory d) sch (mp4 w0) (completion sch) _
                (pool_inv_start _ _ _ (set_temp (Some (default ∅ (temp w0))) w0) _ eq_refl))
    as (_ & Hv & dir & Hdir & Hres).
  split; [done|]. intros paths Hg. rewrite length_imap in Hg.
  apply gather_Ok_inv in Hg.
  assert (Hfiles : ∀ i, (i < length (trajectory d))%nat →
            ∃ p, paths !! i = Some p ∧ p = frame_path i ∧
              dir !! frame_name i =
                Some (entry_of (box_length d) (snapshot_interval d) (trajectory d) i)).
  { intros i Hi.
    destruct (Forall2_lookup_l _ _ _ i i Hg) as (p & Hp & Hr);
      [by apply lookup_seq_lt|].
    destruct (Hres _ _ Hr) as [_ Hok]. destruct (Hok _ eq_refl) as [-> ?]. eauto. }
  split.
  - apply list_eq. intros i. rewrite list_lookup_fmap.
    destruct (decide (i < length (trajectory d))%nat) as [Hi|Hi].
    + destruct (Hfiles i Hi) as (p & -> & -> & _). by rewrite lookup_seq_lt.
    + rewrite lookup_seq_ge by lia. simpl. apply lookup_ge_None.
      apply Forall2_length in Hg. rewrite length_seq in Hg. lia.
  - exists dir. split; [done|]. intros i Hi.
    by destruct (Hfiles i Hi) as (p & _ & _ & ?).
Qed.

(** A task that raised makes the rendering stage raise. *)
Lemma render_stage_raises (savefig_raises : string → bool) (d : SimulationData)
    (sch : schedule) (w0 : World) (i : nat) (e : exn) :
  invocation_outcomes savefig_raises d sch w0 !! i = Some (Raise e) →
  raised (render_stage savefig_raises d sch w0).2.
Proof.
  unfold invocation_outcomes, render_stage, bind, lift, np_array.
  destruct (rectangular (trajectory d)); [|by rewrite lookup_empty].
  rewrite makedirs_spec. unfold pool_imap, run_tasks. simpl. intros Hi.
  pose proof (run_tasks_inv savefig_raises (box_length d) (snapshot_interval d)
                (trajectory d) sch (mp4 w0) (completion sch) _
                (pool_inv_start _ _ _ (set_temp (Some (default ∅ (temp w0))) w0) _ eq_refl))
    as (_ & _ & dir & _ & Hres).
  destruct (Hres _ _ Hi) as [Hlt _].
  eapply gather_raises; [|exact Hi]. rewrite length_imap. apply elem_of_seq. lia.
Qed.

End RenderStageGeneral.

(** ** Assembling the video *)

Section Assemble.
Import SrcSim.

Lemma imread_png (w : World) (dir : gmap string entry) (name : string) (img : image) :
  temp w = Some dir → dir !! name = Some (PngFile img) →
  imread (os_path_join temp_dir name) w = (w, Ok img).
Proof. intros Hd Hn. unfold imread. by rewrite in_temp_join, Hd, Hn. Qed.

(** Reading never changes the world. *)
Lemma imread_world (path : string) (w : World) : (imread path w).1 = w.
Proof.
  unfold imread. destruct (in_temp path); [|done].
  destruct (temp w) as [dir|]; [|done]. by destruct (dir !! s) as [[]|].
Qed.

Lemma read_all_world (size : N * N * N) (paths : list string) (w : World) :
  (read_all size paths w).1 = w.
Proof.
  induction paths as [|p paths IH]; [done|]. simpl. unfold bind.
  pose proof (imread_world p w) as Hw. destruct (imread p w) as [w' [img|e]]; simpl in Hw; subst w'; [|done].
  case_decide; [|done]. unfold bind.
  destruct (read_all size paths w) as [w' [imgs|e]]; simpl in IH; by subst w'.
Qed.

Lemma ImageSequenceClip_world (fps : nat) (w : World) :
  (ImageSequenceClip fps w).1 = w.
Proof.
  unfold ImageSequenceClip, bind, os_listdir. destruct (temp w) as [dir|]; [|done].
  destruct (merge_sort _ _) as [|first rest]; [done|].
  pose proof (imread_world first w) as Hw.
  destruct (imread first w) as [w' [img|e]]; simpl in Hw; subst w'; [|done].
  pose proof (read_all_world (img_shape img) (first :: rest) w) as Hr.
  destruct (read_all _ _ w) as [w' [imgs|e]]; simpl in Hr; by subst w'.
Qed.

(** The assembly stage never touches the scratch directory. *)
Lemma assemble_stage_temp (write_raises : list image → bool) (w : World) :
  temp (assemble_stage write_raises w).1 = temp w.
Proof.
  unfold assemble_stage, bind.
  pose proof (ImageSequenceClip_world 10 w) as Hw.
  destruct (ImageSequenceClip 10 w) as [w' [c|e]]; simpl in Hw; subst w'; [|done].
  unfold write_videofile. by destruct (write_raises _).
Qed.

(** If it raises, it leaves the world as it was. *)
Lemma assemble_stage_raises (write_raises : list image → bool) (w w' : World) (e : exn) :
  assemble_stage write_raises w = (w', Raise e) → w' = w.
Proof.
  unfold assemble_stage, bind.
  pose proof (ImageSequenceClip_world 10 w) as Hw.
  destruct (ImageSequenceClip 10 w) as [w1 [c|e1]]; simpl in Hw; subst w1.
  - unfold write_videofile. destruct (write_raises _); congruence.
  - congruence.
Qed.

Lemma sorted_paths_perm (dir : gmap string entry) :
  sorted_paths dir ≡ₚ os_path_join temp_dir <$> (map_to_list dir).*1.
Proof. apply merge_sort_Permutation. Qed.

Lemma sorted_paths_elem (dir : gmap string entry) (p : string) :
  p ∈ sorted_paths dir → ∃ name e, p = os_path_join temp_dir name ∧ dir !! name = Some e.
Proof.
  rewrite sorted_paths_perm. intros (name & -> & Hn)%list_elem_of_fmap.
  apply list_elem_of_fmap in Hn as ([name' e] & -> & He).
  apply elem_of_map_to_list in He. by exists name', e.
Qed.

Lemma read_all_ok (w : World) (dir : gmap string entry) (shp : N * N * N)
    (paths : list string) :
  temp w = Some dir →
  images_of_shape shp dir →
  (∀ p, p ∈ paths → ∃ name e, p = os_path_join temp_dir name ∧ dir !! name = Some e) →
  ∃ imgs, read_all shp paths w = (w, Ok imgs) ∧ Forall2 (image_at dir) paths imgs.
Proof.
  intros Hd Hsz. induction paths as [|p paths IH]; intros Hp.
  { exists []. split; [done | constructor]. }
  destruct (Hp p) as (name & e & -> & He); [by left|].
  destruct (Hsz _ _ He) as (img & -> & Hshp).
  destruct IH as (imgs & Hr & Hall); [intros q Hq; apply Hp; by right|].
  exists (img :: imgs). split.
  - simpl. unfold bind. rewrite (imread_png w dir name img) by done.
    rewrite decide_True by done. by rewrite Hr.
  - constructor; [by exists name | done].
Qed.

Lemma ImageSequenceClip_ok (fps : nat) (w : World) (dir : gmap string entry)
    (shp : N * N * N) :
  temp w = Some dir → dir ≠ ∅ → images_of_shape shp dir →
  ∃ imgs,
    ImageSequenceClip fps w = (w, Ok {| clip_frames := imgs; clip_fps := fps |}) ∧
    Forall2 (image_at dir) (sorted_paths dir) imgs.
Proof.
  intros Hd Hne Hsz. unfold ImageSequenceClip, bind, os_listdir. rewrite Hd.
  fold (sorted_paths dir).
  destruct (read_all_ok w dir shp (sorted_paths dir) Hd Hsz (sorted_paths_elem dir))
    as (imgs & Hr & Hall).
  destruct (sorted_paths dir) as [|first rest] eqn:Es.
  { exfalso. apply Hne. apply map_to_list_empty_iff.
    pose proof (sorted_paths_perm dir) as Hp. rewrite Es in Hp.
    apply Permutation_nil_l in Hp. symmetry in Hp.
    by do 2 apply fmap_nil_inv in Hp. }
  inversion Hall as [|? img ? imgs' (name & Hname & He) Hrest]; subst.
  rewrite (imread_png w dir name img) by done.
  destruct (Hsz _ _ He) as (img' & [= <-] & ->).
  rewrite Hr. exists (img :: imgs'). done.
Qed.
End Assemble.

(** ** Cleaning up *)

Section Cleanup.
Import SrcSim.

Lemma os_remove_file (w : World) (dir : gmap string entry) (name : string) (e : entry) :
  temp w = Some dir → dir !! name = Some e → e ≠ SubDir →
  os_remove (os_path_join temp_dir name) w = (set_temp (Some (delete name dir)) w, Ok tt).
Proof.
  intros Hd Hn He. unfold os_remove. rewrite in_temp_join, Hd, Hn. by destruct e.
Qed.

Lemma remove_all_files (files : list string) (w : World) (dir : gmap string entry) :
  NoDup files →
  temp w = Some dir →
  (∀ name, name ∈ files → ∃ e, dir !! name = Some e ∧ e ≠ SubDir) →
  remove_all files w = (set_temp (Some (foldr delete dir files)) w, Ok tt).
Proof.
  intros Hnd. revert w dir. induction Hnd as [|name files Hnotin Hnd IH]; intros w dir Hd Hfiles.
  { simpl. unfold ret. destruct w; simpl in *; by subst. }
  destruct (Hfiles name) as (e & He & Hne); [by left|].
  cbn [remove_all]. unfold bind. rewrite (os_remove_file w dir name e) by done.
  rewrite (IH _ (delete name dir)); [| done |].
  - unfold set_temp. simpl. do 3 f_equal.
    rewrite <- delete_foldr_delete. done.
  - intros name' Hin. destruct (Hfiles name') as (e' & He' & Hne'); [by right|].
    exists e'. split; [|done]. rewrite lookup_delete_ne; [done|]. by intros <-.
Qed.

Lemma foldr_delete_all {V} (dir : gmap string V) :
  foldr delete dir (map_to_list dir).*1 = ∅.
Proof.
  apply map_eq. intros name. rewrite lookup_empty.
  destruct (dir !! name) as [e|] eqn:E.
  - apply lookup_foldr_delete. apply list_elem_of_fmap. exists (name, e).
    split; [done|]. by apply elem_of_map_to_list.
  - rewrite lookup_foldr_delete_not_elem_of; [done|].
    intros ([name' e] & -> & He)%list_elem_of_fmap.
    apply elem_of_map_to_list in He. simpl in E. congruence.
Qed.

(** On a scratch directory of regular files, whatever they are, [cleanup]
    removes every file and the directory. *)
Lemma cleanup_files (w : World) (dir : gmap string entry) :
  temp w = Some dir →
  map_Forall (λ _ e, e ≠ SubDir) dir →
  cleanup w = (set_temp None w, Ok tt).
Proof.
  intros Hd Hfiles. unfold cleanup, bind, os_listdir. rewrite Hd.
  rewrite (remove_all_files _ w dir); [| apply NoDup_fst_map_to_list | done |].
  - rewrite foldr_delete_all. unfold os_rmdir. simpl. by rewrite decide_True.
  - intros name ([name' e] & -> & He)%list_elem_of_fmap.
    apply elem_of_map_to_list in He. exists e. split; [done|]. by eapply Hfiles.
Qed.

(** Without the scratch directory, [cleanup] raises at the listing. *)
Lemma cleanup_missing (w : World) :
  temp w = None → cleanup w = (w, Raise FileNotFoundError).
Proof. intros Hd. unfold cleanup, bind, os_listdir. by rewrite Hd. Qed.

End Cleanup.

(** ** The frames on disk and their order *)

Section FramesDir.
Import SrcSim.
Context (L : Q) (SNAPSHOT_INTERVAL : Z) (t : list (list (list Q))).

Local Abbreviation fdir := (frames_dir L SNAPSHOT_INTERVAL t).
Local Abbreviation fentry := (entry_of L SNAPSHOT_INTERVAL t).

Lemma frames_dir_as_fill : fdir = fill frame_name fentry ∅ (seq 0 (length t)).
Proof.
  rewrite (frames_dir_fill L SNAPSHOT_INTERVAL t (seq 0 (length t)) ∅) by done.
  by rewrite (right_id_L ∅ (∪)).
Qed.

Lemma frames_dir_lookup (i : nat) :
  (i < length t)%nat → fdir !! frame_name i = Some (fentry i).
Proof.
  intros Hi. rewrite frames_dir_as_fill. apply (lookup_fill_in frame_name).
  apply elem_of_seq. lia.
Qed.

Lemma frames_dir_lookup_inv (name : string) (e : entry) :
  fdir !! name = Some e →
  ∃ i, (i < length t)%nat ∧ name = frame_name i ∧ e = fentry i.
Proof.
  rewrite frames_dir_as_fill. intros He.
  destruct (key_cases frame_name (seq 0 (length t)) name) as [(i & Hi & <-)|Hno].
  - rewrite (lookup_fill_in frame_name) in He by done. injection He as <-.
    exists i. apply elem_of_seq in Hi. split; [lia | done].
  - rewrite (lookup_fill_notin frame_name) in He by done. by rewrite lookup_empty in He.
Qed.

Lemma frames_dir_keys :
  (map_to_list fdir).*1 ≡ₚ frame_name <$> seq 0 (length t).
Proof.
  unfold frames_dir. rewrite imap_as_seq.
  rewrite map_to_list_to_map.
  - by rewrite <- list_fmap_compose.
  - rewrite <- list_fmap_compose. apply (NoDup_fmap_2 frame_name), NoDup_seq.
Qed.

Lemma frames_dir_empty : fdir = ∅ → t = [].
Proof.
  intros He. destruct t as [|s t'] eqn:Et; [done|]. exfalso.
  assert (Hl : (0 < length t)%nat) by (rewrite Et; simpl; lia).
  pose proof (frames_dir_lookup 0 Hl) as H0. rewrite <- Et in He at 1.
  rewrite He in H0. by rewrite lookup_empty in H0.
Qed.

Lemma frames_dir_size : images_of_shape frame_shape fdir.
Proof.
  intros name e (i & _ & _ & ->)%frames_dir_lookup_inv. by eexists.
Qed.

Lemma sorted_paths_frames_perm :
  sorted_paths fdir ≡ₚ frame_path <$> seq 0 (length t).
Proof.
  rewrite sorted_paths_perm, frames_dir_keys. by rewrite <- list_fmap_compose.
Qed.

Lemma sorted_paths_sorted (dir : gmap string entry) :
  StronglySorted String.le (sorted_paths dir).
Proof. apply StronglySorted_merge_sort; apply _. Qed.
End FramesDir.

Lemma StronglySorted_fmap_seq {A} (R : relation A) (f : nat → A) (a k : nat) :
  (∀ i j, (a ≤ i)%nat → (i ≤ j)%nat → (j < a + k)%nat → R (f i) (f j)) →
  StronglySorted R (f <$> seq a k).
Proof.
  revert a. induction k as [|k IH]; intros a HR; [constructor|].
  simpl. constructor.
  - apply IH. intros i j ???. apply HR; lia.
  - apply Forall_fmap, Forall_forall. intros j Hj%elem_of_seq. simpl.
    apply HR; lia.
Qed.

Lemma frame_path_le (i j : nat) :
  String.le (frame_path i) (frame_path j) ↔ String.le (frame_name i) (frame_name j).
Proof.
  unfold frame_path, os_path_join. by rewrite !le_append_l.
Qed.

(** Up to 10000 frames, the alphabetical order of the paths is the order of
    the snapshots. *)
Lemma sorted_paths_frames (L : Q) (SNAPSHOT_INTERVAL : Z) (t : list (list (list Q))) :
  (N.of_nat (length t) ≤ 10000)%N →
  sorted_paths (frames_dir L SNAPSHOT_INTERVAL t) = frame_path <$> seq 0 (length t).
Proof.
  intros Hn. apply (StronglySorted_unique String.le).
  - apply sorted_paths_sorted.
  - apply StronglySorted_fmap_seq. intros i j _ Hij Hj.
    apply frame_path_le, frame_name_mono; [done | lia].
  - apply sorted_paths_frames_perm.
Qed.

(** From 10001 frames on, the path of frame 10000 comes before the path of
    frame 1001. *)
Lemma frame_10000_before_1001 :
  ¬ String.le (frame_path 1001) (frame_path (N.to_nat 10000)).
Proof. vm_compute. intros H. exact H. Qed.

Lemma sorted_lookup_order {A} (R : relation A) `{!Reflexive R} (l : list A) (p q : nat) (a b : A) :
  StronglySorted R l → l !! p = Some a → l !! q = Some b → ¬ R b a → (p < q)%nat.
Proof.
  intros Hs Hp Hq Hnot. destruct (decide (p < q)%nat) as [|Hge]; [done|].
  exfalso. apply Hnot. destruct (decide (p = q)) as [->|Hne].
  - rewrite Hp in Hq. by injection Hq as ->.
  - assert (Hlt : (q < p)%nat) by lia.
    apply list_elem_of_split_length in Hq as (l1 & l2 & -> & ->).
    rewrite lookup_app_r in Hp by lia.
    destruct (p - length l1)%nat as [|k] eqn:Ek; [lia|]. simpl in Hp.
    apply StronglySorted_app_1_r in Hs. apply StronglySorted_inv in Hs as [_ Hall].
    rewrite Forall_forall in Hall. apply Hall. by eapply list_elem_of_lookup_2.
Qed.

(** ** The whole run of [src/src/sim.py] *)

Section Run.
Import SrcSim.

Lemma Forall2_fmap_functional {A B C} (R : B → C → Prop) (f : A → B) (g : A → C)
    (l : list A) (k : list C) :
  (∀ x y, x ∈ l → R (f x) y → y = g x) →
  Forall2 R (f <$> l) k → k = g <$> l.
Proof.
  revert k. induction l as [|x l IH]; intros k Hfun Hall.
  - by inversion Hall.
  - inversion Hall as [|? y ? k' Hxy Hrest]; subst. simpl. f_equal.
    + apply Hfun; [by left | done].
    + apply IH; [|done]. intros ????. apply Hfun; [by right | done].
Qed.

Lemma image_at_frame (L : Q) (SNAPSHOT_INTERVAL : Z) (t : list (list (list Q)))
    (i : nat) (img : image) :
  (i < length t)%nat →
  image_at (frames_dir L SNAPSHOT_INTERVAL t) (frame_path i) img →
  img = image_of L SNAPSHOT_INTERVAL t i.
Proof.
  intros Hi (name & Hname & He). apply (inj (os_path_join _)) in Hname as <-.
  rewrite frames_dir_lookup in He by done. by injection He as <-.
Qed.

Lemma frame_images_as_seq (L : Q) (SNAPSHOT_INTERVAL : Z) (t : list (list (list Q))) :
  frame_images L SNAPSHOT_INTERVAL t = image_of L SNAPSHOT_INTERVAL t <$> seq 0 (length t).
Proof. unfold frame_images. by rewrite imap_as_seq. Qed.

(** After the rendering stage on a fresh scratch directory, the clip is made
    of the images of the directory in the alphabetical order of their
    paths. *)
Lemma clip_of_frames (L : Q) (SNAPSHOT_INTERVAL : Z) (t : list (list (list Q)))
    (w : World) :
  t ≠ [] →
  ∃ imgs,
    ImageSequenceClip 10 (set_temp (Some (frames_dir L SNAPSHOT_INTERVAL t)) w)
      = (set_temp (Some (frames_dir L SNAPSHOT_INTERVAL t)) w,
         Ok {| clip_frames := imgs; clip_fps := 10 |}) ∧
    Forall2 (image_at (frames_dir L SNAPSHOT_INTERVAL t))
            (sorted_paths (frames_dir L SNAPSHOT_INTERVAL t)) imgs.
Proof.
  intros Hne. eapply ImageSequenceClip_ok; [done | | apply frames_dir_size].
  by intros ?%frames_dir_empty.
Qed.

Lemma cleanup_frames (L : Q) (SNAPSHOT_INTERVAL : Z) (t : list (list (list Q)))
    (w : World) :
  cleanup (set_temp (Some (frames_dir L SNAPSHOT_INTERVAL t)) w) = (set_temp None w, Ok tt).
Proof.
  rewrite (cleanup_files _ (frames_dir L SNAPSHOT_INTERVAL t)); [done..|].
  intros name e (i & _ & _ & ->)%frames_dir_lookup_inv. done.
Qed.

Lemma render_stage_fresh (savefig_raises : string → bool) (d : SimulationData)
    (sch : schedule) (w0 : World) (m : nat) :
  (0 < m)%nat →
  uniform m (trajectory d) →
  complete sch (length (trajectory d)) →
  savefig_quiet savefig_raises (length (trajectory d)) →
  fresh w0 →
  render_stage savefig_raises d sch w0 =
    (set_temp (Some (frames_dir (box_length d) (snapshot_interval d) (trajectory d))) w0,
     Ok (frame_path <$> seq 0 (length (trajectory d)))).
Proof.
  intros Hm Hu Hc Hq Hf. rewrite (render_stage_ok _ _ _ _ m); try done.
  - unfold fresh in Hf. rewrite Hf. by rewrite (right_id_L ∅ (∪)).
  - unfold fresh in Hf. rewrite Hf. intros i _. by rewrite lookup_empty.
Qed.

(** A run on a fresh scratch directory with at most 10000 snapshots: whatever
    the order of completion and whichever worker takes which task, the video
    shows the frames in the order of the snapshots, and the scratch directory
    is removed. *)
Lemma main_fresh (savefig_raises : string → bool) (write_raises : list image → bool)
    (d : SimulationData) (sch : schedule) (w0 : World) (m : nat) :
  (0 < m)%nat →
  uniform m (trajectory d) →
  trajectory d ≠ [] →
  (N.of_nat (length (trajectory d)) ≤ 10000)%N →
  complete sch (length (trajectory d)) →
  savefig_quiet savefig_raises (length (trajectory d)) →
  write_raises (frame_images (box_length d) (snapshot_interval d) (trajectory d)) = false →
  fresh w0 →
  main savefig_raises write_raises d sch w0 =
    ({| temp := None;
        mp4 := Some {| clip_frames :=
                         frame_images (box_length d) (snapshot_interval d) (trajectory d);
                       clip_fps := 10 |} |},
     Ok tt).
Proof.
  intros Hm Hu Hne Hn Hc Hq Hwr Hf. unfold main, bind.
  rewrite (render_stage_fresh _ _ _ _ m) by done.
  unfold assemble_stage, bind.
  destruct (clip_of_frames (box_length d) (snapshot_interval d) (trajectory d) w0 Hne)
    as (imgs & -> & Hall).
  rewrite sorted_paths_frames in Hall by done.
  apply (Forall2_fmap_functional _ _ (image_of (box_length d) (snapshot_interval d) (trajectory d))) in Hall.
  2:{ intros i img Hi%elem_of_seq. apply image_at_frame. lia. }
  rewrite <- frame_images_as_seq in Hall. subst imgs.
  unfold write_videofile. simpl. rewrite Hwr.
  change (set_mp4 ?v (set_temp ?x w0)) with (set_temp x (set_mp4 v w0)).
  by rewrite cleanup_frames.
Qed.
End Run.

(** ** Order of the frames in the video *)

Section Claims.
Import SrcSim.

(** C1 (fails on the code).  The video is read back from the scratch
    directory in the alphabetical order of the file names, and
    [frame_10000.png] sorts between [frame_1000.png] and [frame_1001.png]:
    on every trajectory of more than 10000 snapshots, whatever the order of
    completion, the run succeeds and the video shows the frame of snapshot
    10000 before the frame of snapshot 1001. *)
Theorem video_order_beyond_10000_frames
    (savefig_raises : string → bool) (write_raises : list image → bool)
    (d : SimulationData) (sch : schedule) (w0 : World) (m : nat) :
  (0 < m)%nat →
  uniform m (trajectory d) →
  (10000 < N.of_nat (length (trajectory d)))%N →
  complete sch (length (trajectory d)) →
  savefig_quiet savefig_raises (length (trajectory d)) →
  (∀ frames, write_raises frames = false) →
  fresh w0 →
  ∃ w' imgs p q,
    main savefig_raises write_raises d sch w0 = (w', Ok tt) ∧
    mp4 w' = Some {| clip_frames := imgs; clip_fps := 10 |} ∧
    (p < q)%nat ∧
    imgs !! p = Some (image_of (box_length d) (snapshot_interval d) (trajectory d)
                               (N.to_nat 10000)) ∧
    imgs !! q = Some (image_of (box_length d) (snapshot_interval d) (trajectory d)
                               1001).
Proof.
  intros Hm Hu Hn Hc Hq Hwr Hf.
  set (L := box_length d). set (SI := snapshot_interval d). set (t := trajectory d).
  assert (Hne : t ≠ []).
  { intros Ht. subst t. rewrite Ht in Hn. simpl in Hn. lia. }
  destruct (clip_of_frames L SI t w0 Hne) as (imgs & Hclip & Hall).
  assert (Hin : ∀ i, (i < length t)%nat →
            ∃ p, sorted_paths (frames_dir L SI t) !! p = Some (frame_path i) ∧
                 imgs !! p = Some (image_of L SI t i)).
  { intros i Hi.
    assert (Hel : frame_path i ∈ sorted_paths (frames_dir L SI t)).
    { rewrite sorted_paths_frames_perm. apply list_elem_of_fmap. exists i.
      split; [done|]. apply elem_of_seq. lia. }
    apply list_elem_of_lookup_1 in Hel as [p Hp]. exists p. split; [done|].
    destruct (Forall2_lookup_l _ _ _ _ _ Hall Hp) as (img & Himg & Hat).
    by rewrite Himg, (image_at_frame L SI t i img Hi Hat). }
  destruct (Hin (N.to_nat 10000)) as (p & Hp & Hip); [unfold t; lia|].
  destruct (Hin 1001%nat) as (q & Hq' & Hiq); [unfold t; lia|].
  eexists _, imgs, p, q. split_and!; [| |
    exact (sorted_lookup_order String.le _ p q _ _
             (sorted_paths_sorted _) Hp Hq' frame_10000_before_1001) | done..].
  - unfold main, bind. rewrite (render_stage_fresh _ _ _ _ m) by done.
    unfold assemble_stage, bind. fold L SI t. rewrite Hclip.
    unfold write_videofile. rewrite Hwr.
    change (set_mp4 ?v (set_temp ?x w0)) with (set_temp x (set_mp4 v w0)).
    rewrite cleanup_frames. reflexivity.
  - reflexivity.
Qed.

Lemma video_order_beyond_10000_frames_witness :
  ∃ w' imgs p q,
    main (λ _, false) (λ _, false) long_run
         {| completion := seq 0 (N.to_nat 10001); worker_of := λ _, 0%nat |}
         {| temp := None; mp4 := None |} = (w', Ok tt) ∧
    mp4 w' = Some {| clip_frames := imgs; clip_fps := 10 |} ∧
    (p < q)%nat ∧
    imgs !! p = Some (image_of 10 1 (trajectory long_run) (N.to_nat 10000)) ∧
    imgs !! q = Some (image_of 10 1 (trajectory long_run) 1001).
Proof.
  apply (video_order_beyond_10000_frames _ _ long_run _ _ 1).
  - lia.
  - apply Forall_replicate. split; [reflexivity|]. by repeat constructor.
  - cbn [long_run trajectory]. rewrite length_replicate. lia.
  - unfold complete. cbn [long_run trajectory completion].
    by rewrite length_replicate.
  - intros i _. reflexivity.
  - reflexivity.
  - reflexivity.
Defined.

(** ** One frame per snapshot *)




(** ** A failing invocation *)



(** ** A failing assembly *)

(** C7.  If the rendering stage returned and the assembly of the video then
    raises, the run ends with that exception, cleanup is not run and the
    scratch directory is as the rendering stage left it: it still holds the
    frame of every snapshot. *)
Theorem failed_assembly_keeps_frames
    (savefig_raises : string → bool) (write_raises : list image → bool)
    (d : SimulationData) (sch : schedule) (w0 w1 w2 : World)
    (frame_paths : list string) (e : exn) :
  render_stage savefig_raises d sch w0 = (w1, Ok frame_paths) →
  assemble_stage write_raises w1 = (w2, Raise e) →
  main savefig_raises write_raises d sch w0 = (w2, Raise e) ∧
  temp w2 = temp w1 ∧
  ∃ dir, temp w2 = Some dir ∧
    ∀ i, (i < length (trajectory d))%nat →
      frame_paths !! i = Some (os_path_join temp_dir (frame_name i)) ∧
      dir !! frame_name i =
        Some (PngFile (image_of (box_length d) (snapshot_interval d) (trajectory d) i)).
Proof.
  intros Hr Ha. split_and!.
  - unfold main, bind. by rewrite Hr, Ha.
  - by apply assemble_stage_raises in Ha as ->.
  - apply assemble_stage_raises in Ha as ->.
    destruct (render_stage_spec savefig_raises d sch w0) as (w1' & r & Hr' & _ & Hok).
    rewrite Hr in Hr'. injection Hr' as <- <-.
    destruct (Hok _ eq_refl) as (-> & dir & Hdir & Hfiles).
    exists dir. split; [done|]. intros i Hi. split; [|by apply Hfiles].
    rewrite list_lookup_fmap, lookup_seq_lt by done. reflexivity.
Qed.

Lemma failed_assembly_keeps_frames_witness :
  main never never scenario reversed stale_scratch
    = (stale_rendered, Raise SizeMismatch) ∧
  temp stale_rendered = temp stale_rendered ∧
  ∃ dir, temp stale_rendered = Some dir ∧
    ∀ i, (i < 2)%nat →
      [frame_path 0; frame_path 1] !! i = Some (os_path_join temp_dir (frame_name i)) ∧
      dir !! frame_name i = Some (PngFile (image_of 10 10 (trajectory scenario) i)).
Proof.
  apply (failed_assembly_keeps_frames never never scenario reversed stale_scratch
           stale_rendered stale_rendered [frame_path 0; frame_path 1] SizeMismatch).
  - vm_compute. reflexivity.
  - vm_compute. reflexivity.
Defined.

(** ** Cleanup *)

(** C9.  [cleanup] takes no list of the paths the run produced: it removes
    what the listing of the scratch directory returns.  On a scratch
    directory of regular files, whichever they are and whoever wrote them,
    it returns, and afterwards no file that was in the directory is left,
    nor the directory. *)
Theorem cleanup_removes_every_file (w : World) (dir : gmap string entry) :
  temp w = Some dir →
  map_Forall (λ _ e, e ≠ SubDir) dir →
  ∃ w', cleanup w = (w', Ok tt) ∧
        temp w' = None ∧
        ∀ name, is_Some (dir !! name) → entry_at w' name = None.
Proof.
  intros Hd Hfiles. exists (set_temp None w). split_and!.
  - by apply (cleanup_files w dir).
  - reflexivity.
  - intros name _. reflexivity.
Qed.

Lemma cleanup_removes_every_file_witness :
  ∃ w', cleanup mixed_scratch = (w', Ok tt) ∧
        temp w' = None ∧
        ∀ name, is_Some (({[ "frame_0000.png" := PngFile old_picture;
                             "notes.txt" := OtherFile ]} : gmap string entry) !! name) →
                entry_at w' name = None.
Proof.
  apply (cleanup_removes_every_file mixed_scratch).
  - reflexivity.
  - intros name e. rewrite lookup_insert_Some, lookup_singleton_Some.
    intros [[_ <-]|[_ [_ <-]]]; discriminate.
Defined.

(** C4 (as amended).  [cleanup] tolerates missing files but not a missing
    scratch directory: with any part of the files of a directory of regular
    files already removed it still returns and leaves no scratch directory;
    when the scratch directory does not exist it raises [FileNotFoundError]
    and changes nothing. *)
Theorem cleanup_partial_or_missing (w : World) :
  (∀ dir present : gmap string entry,
     map_Forall (λ _ e, e ≠ SubDir) dir → present ⊆ dir →
     cleanup (set_temp (Some present) w) = (set_temp None w, Ok tt)) ∧
  cleanup (set_temp None w) = (set_temp None w, Raise FileNotFoundError).
Proof.
  split.
  - intros dir present Hfiles Hsub.
    rewrite (cleanup_files _ present); [done..|].
    intros name e He. apply (Hfiles name).
    by eapply lookup_weaken.
  - by apply cleanup_missing.
Qed.

Lemma cleanup_partial_or_missing_witness :
  cleanup (set_temp (Some {[ "notes.txt" := OtherFile ]}) mixed_scratch)
    = (set_temp None mixed_scratch, Ok tt) ∧
  cleanup (set_temp None mixed_scratch)
    = (set_temp None mixed_scratch, Raise FileNotFoundError).
Proof.
  split.
  - apply (proj1 (cleanup_partial_or_missing mixed_scratch)
             {[ "frame_0000.png" := PngFile old_picture; "notes.txt" := OtherFile ]}).
    + intros name e. rewrite lookup_insert_Some, lookup_singleton_Some.
      intros [[_ <-]|[_ [_ <-]]]; discriminate.
    + apply insert_subseteq. reflexivity.
  - apply (proj2 (cleanup_partial_or_missing mixed_scratch)).
Defined.

(** C4 fails as stated: after a first cleanup that returned, a second one
    raises [FileNotFoundError]. *)
Lemma cleanup_twice_raises :
  cleanup mixed_scratch = (no_scratch, Ok tt) ∧
  cleanup (cleanup mixed_scratch).1 = (no_scratch, Raise FileNotFoundError).
Proof. split; vm_compute; reflexivity. Qed.

(** ** Shape validation *)




(** ** The rendering context *)

(** An invocation starts by clearing the axes and sets the limits, the
    points, the legend, the title and the layout itself; nothing of the
    figure it is given survives but the canvas. *)
Lemma process_frame_forgets (savefig_raises : string → bool) (L : Q)
    (SNAPSHOT_INTERVAL : Z) (args : nat * list (list Q)) (f f' : figure) (w : World) :
  canvas_w f = canvas_w f' → canvas_h f = canvas_h f' →
  (process_frame savefig_raises L SNAPSHOT_INTERVAL args f w).1.2
    = (process_frame savefig_raises L SNAPSHOT_INTERVAL args f' w).1.2 ∧
  (process_frame savefig_raises L SNAPSHOT_INTERVAL args f w).2
    = (process_frame savefig_raises L SNAPSHOT_INTERVAL args f' w).2.
Proof.
  intros Hw Hh. destruct args as [i positions].
  destruct (process_frame_cases savefig_raises L SNAPSHOT_INTERVAL i positions f w)
    as (f1 & w1 & r1 & -> & _ & _ & Hr1 & Hc1).
  destruct (process_frame_cases savefig_raises L SNAPSHOT_INTERVAL i positions f' w)
    as (f2 & w2 & r2 & -> & _ & _ & Hr2 & Hc2).
  cbn [fst snd]. rewrite <- Hr1 in Hr2. subst r2. split; [|done].
  destruct r1 as [p|e]; [|congruence].
  destruct Hc1 as (_ & d1 & Hd1 & ->), Hc2 as (_ & d2 & Hd2 & ->).
  rewrite Hd1 in Hd2. injection Hd2 as <-. by rewrite Hw, Hh.
Qed.

Lemma process_frame_canvas (savefig_raises : string → bool) (L : Q)
    (SNAPSHOT_INTERVAL : Z) (args : nat * list (list Q)) (f : figure) (w : World) :
  canvas_w (process_frame savefig_raises L SNAPSHOT_INTERVAL args f w).1.1 = canvas_w f ∧
  canvas_h (process_frame savefig_raises L SNAPSHOT_INTERVAL args f w).1.1 = canvas_h f.
Proof.
  destruct args as [i positions].
  destruct (process_frame_cases savefig_raises L SNAPSHOT_INTERVAL i positions f w)
    as (f' & w' & r & -> & ? & ? & _). done.
Qed.

Lemma worker_canvas (fs : gmap nat figure) (k : nat) :
  same_canvas fs →
  canvas_w (default plt_figure (fs !! k)) = canvas_w plt_figure ∧
  canvas_h (default plt_figure (fs !! k)) = canvas_h plt_figure.
Proof.
  intros Hc. destruct (fs !! k) as [f|] eqn:Ef; [|done]. by apply (Hc _ _ Ef).
Qed.

Lemma run_task_canvas (savefig_raises : string → bool) (L : Q)
    (SNAPSHOT_INTERVAL : Z) (args : list (nat * list (list Q)))
    (sch : schedule) (st : pool_state) (i : nat) :
  same_canvas (figs st) →
  same_canvas (figs (run_task savefig_raises L SNAPSHOT_INTERVAL args sch plt_figure st i)).
Proof.
  intros Hc. unfold run_task. destruct (args !! i) as [a|]; [|done].
  pose proof (process_frame_canvas savefig_raises L SNAPSHOT_INTERVAL a
                (default plt_figure (figs st !! worker_of sch i)) (disk st)) as [Hw Hh].
  destruct (process_frame _ _ _ a _ (disk st)) as [[f1 w1] r1]. simpl in *.
  apply map_Forall_insert_2; [|done].
  rewrite Hw, Hh. by apply worker_canvas.
Qed.

(** Which worker takes a task changes neither what the task returns nor what
    it writes. *)
Lemma run_task_workers (savefig_raises : string → bool) (L : Q)
    (SNAPSHOT_INTERVAL : Z) (args : list (nat * list (list Q)))
    (sch sch' : schedule) (st st' : pool_state) (i : nat) :
  same_canvas (figs st) → same_canvas (figs st') →
  results st = results st' → disk st = disk st' →
  results (run_task savefig_raises L SNAPSHOT_INTERVAL args sch plt_figure st i)
    = results (run_task savefig_raises L SNAPSHOT_INTERVAL args sch' plt_figure st' i) ∧
  disk (run_task savefig_raises L SNAPSHOT_INTERVAL args sch plt_figure st i)
    = disk (run_task savefig_raises L SNAPSHOT_INTERVAL args sch' plt_figure st' i).
Proof.
  intros Hc Hc' Hr Hd. unfold run_task. destruct (args !! i) as [a|]; [|done].
  destruct (worker_canvas _ (worker_of sch i) Hc) as [Hw Hh].
  destruct (worker_canvas _ (worker_of sch' i) Hc') as [Hw' Hh'].
  destruct (process_frame_forgets savefig_raises L SNAPSHOT_INTERVAL a
              (default plt_figure (figs st !! worker_of sch i))
              (default plt_figure (figs st' !! worker_of sch' i)) (disk st))
    as [Hwd Hres]; [congruence..|].
  rewrite <- Hd.
  destruct (process_frame _ _ _ a (default plt_figure (figs st !! _)) (disk st))
    as [[f1 w1] r1].
  destruct (process_frame _ _ _ a (default plt_figure (figs st' !! _)) (disk st))
    as [[f2 w2] r2].
  cbn [results disk fst snd] in *. by rewrite Hr, Hres, Hwd.
Qed.

Lemma run_tasks_workers (savefig_raises : string → bool) (L : Q)
    (SNAPSHOT_INTERVAL : Z) (args : list (nat * list (list Q)))
    (sch sch' : schedule) (o : list nat) (st st' : pool_state) :
  same_canvas (figs st) → same_canvas (figs st') →
  results st = results st' → disk st = disk st' →
  results (foldl (run_task savefig_raises L SNAPSHOT_INTERVAL args sch plt_figure) st o)
    = results (foldl (run_task savefig_raises L SNAPSHOT_INTERVAL args sch' plt_figure) st' o) ∧
  disk (foldl (run_task savefig_raises L SNAPSHOT_INTERVAL args sch plt_figure) st o)
    = disk (foldl (run_task savefig_raises L SNAPSHOT_INTERVAL args sch' plt_figure) st' o).
Proof.
  revert st st'. induction o as [|i o IH]; intros st st' Hc Hc' Hr Hd; [done|].
  cbn [foldl].
  destruct (run_task_workers savefig_raises L SNAPSHOT_INTERVAL args sch sch' st st' i)
    as [??]; [done..|].
  apply IH; [by apply run_task_canvas.. | done | done].
Qed.

(** C3 (as amended).  An invocation draws on the figure of the process it
    runs in, a copy of the one module-level figure, and leaves its drawing
    there for the next invocation of that process; it builds no context of
    its own.  What it writes and returns does not depend on what the figure
    showed before, only on the arguments, the run parameters and the size of
    the canvas; so the rendering stage does the same whichever worker takes
    which task. *)
Theorem frame_independent_of_figure_state
    (savefig_raises : string → bool) (L : Q) (SNAPSHOT_INTERVAL : Z) :
  (∀ args (f : figure) (a : axes) (b : bool) (s : option scene) (w : World),
     let f' := {| canvas_w := canvas_w f; canvas_h := canvas_h f;
                  tight := b; ax := a; drawn := s |} in
     (process_frame savefig_raises L SNAPSHOT_INTERVAL args f' w).1.2
       = (process_frame savefig_raises L SNAPSHOT_INTERVAL args f w).1.2 ∧
     (process_frame savefig_raises L SNAPSHOT_INTERVAL args f' w).2
       = (process_frame savefig_raises L SNAPSHOT_INTERVAL args f w).2) ∧
  (∀ (d : SimulationData) (order : list nat) (k k' : nat → nat) (w : World),
     render_stage savefig_raises d {| completion := order; worker_of := k |} w
       = render_stage savefig_raises d {| completion := order; worker_of := k' |} w).
Proof.
  split.
  - intros args f a b s w f'. by apply process_frame_forgets.
  - intros d order k k' w. unfold render_stage, bind, lift.
    destruct (np_array (trajectory d)) as [t|e]; [|done].
    destruct (os_makedirs_exist_ok w) as [w1 [[]|e]]; [|done].
    unfold pool_imap, run_tasks. cbn [completion].
    match goal with
    | |- (disk (foldl ?s1 ?st order), gather (results _) ?idx) = _ =>
        destruct (run_tasks_workers savefig_raises (box_length d) (snapshot_interval d)
                    (imap (λ i positions, (i, positions)) t)
                    {| completion := order; worker_of := k |}
                    {| completion := order; worker_of := k' |} order st st)
          as [-> ->]
    end; try done.
    all: intros j f Hj; simpl in Hj; by rewrite lookup_empty in Hj.
Qed.

(** C3 fails as stated: an invocation does not leave the figure of its
    process as it found it, and the next invocation there starts from the
    axes this one has drawn: after the pool has run the two tasks of the
    scenario on one worker, that worker's figure shows the snapshot drawn
    last. *)
Lemma process_frame_reuses_figure :
  (process_frame never 10 10 (0%nat, [[1; 1; 1]]%Q) plt_figure empty_scratch).1.1
    ≠ plt_figure ∧
  ax (process_frame never 10 10 (0%nat, [[1; 1; 1]]%Q) plt_figure empty_scratch).1.1
    = frame_axes 10 10 0 [[1; 1; 1]]%Q ∧
  figs (run_tasks never 10 10
          (imap (λ i positions, (i, positions)) (trajectory scenario))
          reversed plt_figure empty_scratch) !! 0%nat
    = Some (figure_after 10 10 plt_figure 0 [[1; 1; 1]; [2; 2; 2]]%Q).
Proof. split_and!; [discriminate | reflexivity | vm_compute; reflexivity]. Qed.
End Claims.

(** ** The sequential script [src/video/sim.py] *)

Section Sequential.
Import VideoSim.

Lemma reshape_canvas (f : figure) :
  reshape (np_frombuffer (fig_canvas_tostring_rgb f)) [canvas_h f; canvas_w f; 3%N]
  = Ok {| shape := [canvas_h f; canvas_w f; 3%N];
          data := fig_canvas_tostring_rgb f |}.
Proof.
  unfold reshape. simpl.
  replace (canvas_h f * (canvas_w f * (3 * 1)))%N with (canvas_w f * canvas_h f * 3 * 1)%N by lia.
  by rewrite N.eqb_refl.
Qed.

(** The loop, whatever the trajectory: the canvas keeps its size; if the loop
    returns, it has appended one frame per snapshot, in order, each of the
    shape of the canvas and titled by its index. *)
Lemma render_loop_spec (L : Q) (SNAPSHOT_INTERVAL : Z) (rest : list (list (list Q)))
    (i : nat) (f : figure) (frames : list ndarray) :
  ∃ f' r,
    render_loop L SNAPSHOT_INTERVAL i rest f frames = (f', r) ∧
    canvas_w f' = canvas_w f ∧ canvas_h f' = canvas_h f ∧
    ∀ out, r = Ok out →
      out = (frames ++ imap (λ j positions,
                               seq_frame L SNAPSHOT_INTERVAL (canvas_w f) (canvas_h f)
                                         (i + j) positions) rest)%list.
Proof.
  revert i f frames. induction rest as [|positions rest IH]; intros i f frames.
  { eexists _, _. split_and!; [reflexivity|done..|].
    intros out [= <-]. cbn [imap]. by rewrite app_nil_r. }
  cbn [render_loop].
  destruct (column 0 positions) as [xs|e0] eqn:E0;
    [|eexists _, _; split_and!; [reflexivity|done..]].
  destruct (column 1 positions) as [ys|e1] eqn:E1;
    [|eexists _, _; split_and!; [reflexivity|done..]].
  destruct (column 2 positions) as [zs|e2] eqn:E2;
    [|eexists _, _; split_and!; [reflexivity|done..]].
  apply column_Ok_col in E0, E1, E2. subst xs ys zs.
  match goal with
  | |- context [fig_canvas_get_width_height ?g] => set (g' := g)
  end.
  assert (Hw : canvas_w g' = canvas_w f) by reflexivity.
  assert (Hh : canvas_h g' = canvas_h f) by reflexivity.
  assert (Hd : fig_canvas_tostring_rgb g'
               = data (seq_frame L SNAPSHOT_INTERVAL (canvas_w f) (canvas_h f) i positions))
    by reflexivity.
  clearbody g'. cbn [fig_canvas_get_width_height]. rewrite reshape_canvas.
  destruct (IH (S i) g'
              (frames ++ [{| shape := [canvas_h g'; canvas_w g'; 3%N];
                             data := fig_canvas_tostring_rgb g' |}])%list)
    as (f' & r & -> & Hw' & Hh' & Hout).
  exists f', r. split_and!; [done | congruence | congruence |].
  intros out Hr. rewrite (Hout out Hr), <- (assoc_L (++)%list). f_equal.
  cbn [imap app]. rewrite Hd, Hw, Hh, Nat.add_0_r. f_equal.
  apply imap_ext. intros j p _. simpl. f_equal. lia.
Qed.

(** On snapshots that can be sliced the loop returns. *)
Lemma render_loop_returns (L : Q) (SNAPSHOT_INTERVAL : Z) (rest : list (list (list Q)))
    (i : nat) (f : figure) (frames : list ndarray) :
  Forall sliceable rest →
  ∃ f' out, render_loop L SNAPSHOT_INTERVAL i rest f frames = (f', Ok out).
Proof.
  intros Hs. revert i f frames. induction Hs as [|positions rest Hp _ IH]; intros i f frames.
  { by eexists _, _. }
  cbn [render_loop]. rewrite !column_sliceable by (done || lia).
  cbn [fig_canvas_get_width_height]. rewrite reshape_canvas. apply IH.
Qed.

Lemma render_frames_spec (d : SimulationData) (frames : list ndarray) :
  render_frames d = Ok frames →
  frames = imap (seq_frame (box_length d) (snapshot_interval d)
                           (canvas_w plt_figure) (canvas_h plt_figure))
                (trajectory d).
Proof.
  unfold render_frames, np_array. destruct (rectangular (trajectory d)); [|done].
  destruct (render_loop_spec (box_length d) (snapshot_interval d) (trajectory d) 0
              (setup_figure (box_length d)) []) as (f' & r & -> & _ & _ & Hout).
  simpl. intros ->. by rewrite (Hout _ eq_refl).
Qed.

Lemma ImageSequenceClip_same_shape (frames : list ndarray) (fps : nat) (shp : list N) :
  Forall (λ a, shape a = shp) frames →
  ImageSequenceClip frames fps ≠ Raise SizeMismatch.
Proof.
  intros Hall. unfold ImageSequenceClip. destruct frames as [|first rest]; [done|].
  rewrite (proj2 (forallb_forall _ _)); [done|].
  intros a Ha%list_elem_of_In. apply bool_decide_eq_true.
  rewrite Forall_forall in Hall. rewrite (Hall a Ha). symmetry. apply Hall. by left.
Qed.

(** C10.  In the sequential script every frame appended to [frames] has the
    shape (height, width, 3) of the one canvas, so all frames have the same
    height and width and the size check of the clip never fails. *)
Theorem frames_have_canvas_shape (d : SimulationData) (frames : list ndarray) :
  render_frames d = Ok frames →
  Forall (λ a, shape a = [canvas_h plt_figure; canvas_w plt_figure; 3%N]) frames ∧
  (∀ a b, a ∈ frames → b ∈ frames → shape a = shape b) ∧
  ∀ (write_raises : list ndarray → bool) (mp4 : option (clip ndarray)),
    (main write_raises d mp4).2 ≠ Raise SizeMismatch.
Proof.
  intros Hr.
  assert (Hall : Forall (λ a, shape a = [canvas_h plt_figure; canvas_w plt_figure; 3%N]) frames).
  { rewrite (render_frames_spec d frames Hr). apply Forall_forall.
    intros a (j & Hj)%list_elem_of_lookup_1. rewrite list_lookup_imap in Hj.
    destruct (trajectory d !! j) as [p|]; [|done]. by injection Hj as <-. }
  split_and!; [done | |].
  - rewrite Forall_forall in Hall. intros a b Ha Hb. by rewrite (Hall a Ha), (Hall b Hb).
  - intros write_raises mp4. unfold main. rewrite Hr.
    pose proof (ImageSequenceClip_same_shape frames 10 _ Hall) as Hc.
    destruct (ImageSequenceClip frames 10) as [c|e]; [by destruct (write_raises _)|].
    simpl. congruence.
Qed.

Lemma frames_have_canvas_shape_witness :
  Forall (λ a, shape a = [480; 640; 3]%N)
         (imap (seq_frame 10 10 640%N 480%N) (trajectory scenario)) ∧
  (∀ a b, a ∈ imap (seq_frame 10 10 640%N 480%N) (trajectory scenario) →
          b ∈ imap (seq_frame 10 10 640%N 480%N) (trajectory scenario) →
          shape a = shape b) ∧
  ∀ (write_raises : list ndarray → bool) (mp4 : option (clip ndarray)),
    (main write_raises scenario mp4).2 ≠ Raise SizeMismatch.
Proof. apply (frames_have_canvas_shape scenario). reflexivity. Defined.

End Sequential.

(** ** The title of a frame *)

(** C8.  In both scripts the title of the frame of snapshot [i] is
    [Timestep] followed by the product of [i] and the snapshot interval.  In
    the parallel script an invocation that returns has written, under the
    path it returns, an image with that title.  In the sequential script the
    loop, when it returns, has appended one frame per snapshot, and for every
    snapshot [i] the [i]-th frame of the list shows that title; and the loop
    does return on a trajectory that converts to an array and whose snapshots
    can be sliced. *)
Theorem frame_title_is_index_times_interval :
  (∀ (savefig_raises : string → bool) (L : Q) (SNAPSHOT_INTERVAL : Z) (i : nat)
     (positions : list (list Q)) (f f' : figure) (w w' : SrcSim.World) (p : string),
     SrcSim.process_frame savefig_raises L SNAPSHOT_INTERVAL (i, positions) f w
       = (f', w', Ok p) →
     ∃ dir img,
       SrcSim.in_temp p = Some (frame_name i) ∧
       SrcSim.temp w' = Some dir ∧
       dir !! frame_name i = Some (SrcSim.PngFile img) ∧
       title (sc_axes (img_scene img))
         = "Timestep " +:+ str_int (Z.of_nat i * SNAPSHOT_INTERVAL)) ∧
  (∀ (d : SimulationData) (frames : list VideoSim.ndarray),
     VideoSim.render_frames d = Ok frames →
     length frames = length (trajectory d) ∧
     ∀ (i : nat) (positions : list (list Q)),
       trajectory d !! i = Some positions →
       ∃ a sc,
         frames !! i = Some a ∧
         VideoSim.buf_scene (VideoSim.data a) = Some sc ∧
         title (sc_axes sc)
           = "Timestep " +:+ str_int (Z.of_nat i * snapshot_interval d)) ∧
  (∀ d : SimulationData,
     rectangular (trajectory d) = true →
     Forall sliceable (trajectory d) →
     ∃ frames, VideoSim.render_frames d = Ok frames).
Proof.
  split.
  - intros savefig_raises L SI i positions f f' w w' p Hp.
    destruct (process_frame_cases savefig_raises L SI i positions f w)
      as (f1 & w1 & r & Hr & _ & _ & _ & Hcase).
    rewrite Hp in Hr. injection Hr as <- <- <-.
    destruct Hcase as (-> & dir & Hdir & ->).
    eexists _, _. split_and!; [apply in_temp_join | reflexivity | apply lookup_insert_eq | reflexivity].
  - split.
    + intros d frames Hr. rewrite (render_frames_spec d frames Hr). split.
      * apply length_imap.
      * intros i positions Hi. eexists _, _. rewrite list_lookup_imap, Hi.
        split_and!; reflexivity.
    + intros d Hrect Hs. unfold VideoSim.render_frames, np_array. rewrite Hrect.
      destruct (render_loop_returns (box_length d) (snapshot_interval d)
                  (trajectory d) 0 (VideoSim.setup_figure (box_length d)) [] Hs)
        as (f' & out & ->).
      by exists out.
Qed.

Lemma frame_title_is_index_times_interval_witness :
  (∃ dir img,
     SrcSim.in_temp "temp/frame_0003.png" = Some (frame_name 3) ∧
     SrcSim.temp (SrcSim.process_frame never 10%Q 10%Z (3%nat, [[1; 1; 1]]%Q) plt_figure
                    empty_scratch).1.2 = Some dir ∧
     dir !! frame_name 3 = Some (SrcSim.PngFile img) ∧
     title (sc_axes (img_scene img)) = "Timestep 30") ∧
  (∃ frames,
     VideoSim.render_frames scenario = Ok frames ∧
     length frames = 2%nat ∧
     ∃ a sc,
       frames !! 1%nat = Some a ∧
       VideoSim.buf_scene (VideoSim.data a) = Some sc ∧
       title (sc_axes sc) = "Timestep 10").
Proof.
  split.
  - apply (proj1 frame_title_is_index_times_interval never 10%Q 10%Z 3%nat [[1; 1; 1]]%Q
             plt_figure
             (SrcSim.process_frame never 10%Q 10%Z (3%nat, [[1; 1; 1]]%Q) plt_figure
                empty_scratch).1.1
             empty_scratch).
    reflexivity.
  - destruct (proj2 (proj2 frame_title_is_index_times_interval) scenario)
      as [frames Hr].
    + reflexivity.
    + repeat constructor; discriminate.
    + exists frames. split; [exact Hr|].
      destruct (proj1 (proj2 frame_title_is_index_times_interval) scenario frames Hr)
        as [Hlen Htitle].
      split; [exact Hlen|].
      apply (Htitle 1%nat [[3; 3; 3]; [4; 4; 4]]%Q). reflexivity.
Defined.

(** ** Further properties of [src/src/sim.py] *)

Section MoreSrcSim.
Import SrcSim.

(** *** File names *)

(** X6.  Different snapshots get different frame files, at every index, also
    beyond the four digits of the padding: no two invocations of
    [process_frame] of a run write the same path. *)
Theorem frame_paths_differ (i j : nat) :
  i ≠ j → os_path_join temp_dir (frame_name i) ≠ os_path_join temp_dir (frame_name j).
Proof. intros Hne Heq. by apply (inj (os_path_join _)), (inj frame_name) in Heq. Qed.

Lemma frame_paths_differ_witness :
  os_path_join temp_dir (frame_name (N.to_nat 9999))
    ≠ os_path_join temp_dir (frame_name (N.to_nat 10000)).
Proof. apply frame_paths_differ. lia. Defined.

(** X7.  Below index 10000 the alphabetical order of the frame paths is the
    order of the indices. *)
Theorem frame_paths_order (i j : nat) :
  (N.of_nat i < 10000)%N → (N.of_nat j < 10000)%N →
  (String.le (frame_path i) (frame_path j) ↔ (i ≤ j)%nat).
Proof.
  intros Hi Hj. split.
  - intros Hle. destruct (decide (i ≤ j)%nat) as [|Hgt]; [done|]. exfalso.
    assert (Hji : String.le (frame_path j) (frame_path i)).
    { apply frame_path_le, frame_name_mono; [lia | done]. }
    pose proof (anti_symm String.le _ _ Hle Hji) as Heq.
    apply (inj (os_path_join _)), (inj frame_name) in Heq. lia.
  - intros Hle. by apply frame_path_le, frame_name_mono.
Qed.

Lemma frame_paths_order_witness :
  String.le (frame_path 999) (frame_path 1000) ↔ (999 ≤ 1000)%nat.
Proof. apply frame_paths_order; lia. Defined.

(** *** Slicing *)

Lemma column_raises (k : nat) (positions : list (list Q)) (e : exn) :
  column k positions = Raise e → e = IndexError.
Proof.
  unfold column. destruct positions as [|row rows]; [congruence|].
  destruct (mapM _ _); congruence.
Qed.

Lemma column_Ok_rows (k : nat) (positions : list (list Q)) (xs : list Q) :
  column k positions = Ok xs →
  positions ≠ [] ∧ Forall (λ row : list Q, (k < length row)%nat) positions.
Proof.
  unfold column. destruct positions as [|row rows]; [done|].
  destruct (mapM _ _) as [c|] eqn:E; [|done]. intros _. split; [done|].
  apply mapM_Some in E. revert E. generalize (row :: rows). intros l E.
  induction E as [|r y l c' Hy _ IH]; constructor; [|done].
  by eapply lookup_lt_Some.
Qed.

(** X5.  An invocation of [process_frame] raises [IndexError] exactly on the
    snapshots that cannot be sliced (no row, or a row of fewer than three
    entries); it has then cleared the axes and set the limits, and has
    written nothing. *)
Theorem process_frame_index_error
    (savefig_raises : string → bool) (L : Q) (SNAPSHOT_INTERVAL : Z)
    (i : nat) (positions : list (list Q)) (f : figure) (w : World) :
  (¬ sliceable positions →
   process_frame savefig_raises L SNAPSHOT_INTERVAL (i, positions) f w
     = (ax_set_zlim 0 L (ax_set_ylim 0 L (ax_set_xlim 0 L (ax_clear f))),
        w, Raise IndexError)) ∧
  (sliceable positions →
   (process_frame savefig_raises L SNAPSHOT_INTERVAL (i, positions) f w).2
     ≠ Raise IndexError).
Proof.
  split.
  - intros Hns. unfold process_frame.
    destruct (column 0 positions) as [xs|e0] eqn:E0;
      [|by rewrite (column_raises _ _ _ E0)].
    destruct (column 1 positions) as [ys|e1] eqn:E1;
      [|by rewrite (column_raises _ _ _ E1)].
    destruct (column 2 positions) as [zs|e2] eqn:E2;
      [|by rewrite (column_raises _ _ _ E2)].
    exfalso. apply Hns. apply column_Ok_rows in E2 as [Hne Hrows].
    split; [done|]. eapply Forall_impl; [exact Hrows|]. simpl. lia.
  - intros Hs. unfold process_frame. rewrite !column_sliceable by (done || lia).
    unfold plt_savefig. rewrite in_temp_join.
    destruct (temp w) as [dir|]; [|done].
    destruct (savefig_raises _); [done|].
    by destruct (dir !! frame_name i) as [[]|].
Qed.

Lemma process_frame_index_error_witness :
  process_frame never 10 10 (0%nat, [[1; 1]]%Q) plt_figure empty_scratch
    = (ax_set_zlim 0 10 (ax_set_ylim 0 10 (ax_set_xlim 0 10 (ax_clear plt_figure))),
       empty_scratch, Raise IndexError) ∧
  (process_frame never 10 10 (0%nat, [[1; 1; 1]]%Q) plt_figure empty_scratch).2
    ≠ Raise IndexError.
Proof.
  split.
  - apply (proj1 (process_frame_index_error never 10 10 0 [[1; 1]]%Q plt_figure empty_scratch)).
    intros [_ Hrows]. apply Forall_cons in Hrows as [Hlen _]. simpl in Hlen. lia.
  - apply (proj2 (process_frame_index_error never 10 10 0 [[1; 1; 1]]%Q plt_figure empty_scratch)).
    split; [done|]. repeat constructor.
Defined.

(** *** The order of the frames *)

(** X1.  On a fresh scratch directory, with at most 10000 snapshots that can
    all be rendered, the run returns and the clip [write_videofile] is
    called on, from which the video is encoded, is made of exactly the frames
    of the snapshots, one picture per snapshot in the order of the snapshots,
    at 10 pictures per second, whatever the order in which the tasks complete
    and whichever worker takes which task; the scratch directory is removed.
    (Which pictures of the clip the encoder samples into the file is outside
    the model.) *)
Theorem video_in_snapshot_order
    (savefig_raises : string → bool) (write_raises : list image → bool)
    (d : SimulationData) (sch : schedule) (w0 : World) (m : nat) :
  (0 < m)%nat →
  uniform m (trajectory d) →
  trajectory d ≠ [] →
  (N.of_nat (length (trajectory d)) ≤ 10000)%N →
  complete sch (length (trajectory d)) →
  savefig_quiet savefig_raises (length (trajectory d)) →
  write_raises (frame_images (box_length d) (snapshot_interval d) (trajectory d)) = false →
  fresh w0 →
  main savefig_raises write_raises d sch w0 =
    ({| temp := None;
        mp4 := Some {| clip_frames :=
                         imap (frame_image (canvas_w plt_figure) (canvas_h plt_figure)
                                 (box_length d) (snapshot_interval d)) (trajectory d);
                       clip_fps := 10 |} |},
     Ok tt) ∧
  ∀ sch', complete sch' (length (trajectory d)) →
    main savefig_raises write_raises d sch' w0
      = main savefig_raises write_raises d sch w0.
Proof.
  intros Hm Hu Hne Hn Hc Hq Hwr Hf. split.
  - by apply (main_fresh _ _ _ _ _ m).
  - intros sch' Hc'. by rewrite !(main_fresh _ _ d _ w0 m).
Qed.

Lemma video_in_snapshot_order_witness :
  main never never scenario reversed no_scratch =
    ({| temp := None;
        mp4 := Some {| clip_frames :=
                         [frame_image 640 480 10 10 0 [[1; 1; 1]; [2; 2; 2]]%Q;
                          frame_image 640 480 10 10 1 [[3; 3; 3]; [4; 4; 4]]%Q];
                       clip_fps := 10 |} |},
     Ok tt) ∧
  ∀ sch', complete sch' 2 →
    main never never scenario sch' no_scratch
      = main never never scenario reversed no_scratch.
Proof.
  apply (video_in_snapshot_order never never scenario reversed no_scratch 2).
  - lia.
  - repeat constructor.
  - discriminate.
  - simpl. lia.
  - apply perm_swap.
  - intros i _. reflexivity.
  - reflexivity.
  - reflexivity.
Defined.

(** *** What is in the scratch directory before the run *)

Lemma frames_dir_not_frame (L : Q) (SNAPSHOT_INTERVAL : Z) (t : list (list (list Q)))
    (name : string) :
  (∀ i, (i < length t)%nat → name ≠ frame_name i) →
  frames_dir L SNAPSHOT_INTERVAL t !! name = None.
Proof.
  intros Hno. destruct (frames_dir L SNAPSHOT_INTERVAL t !! name) as [e|] eqn:E; [|done].
  apply frames_dir_lookup_inv in E as (i & Hi & -> & _). by destruct (Hno i Hi).
Qed.

Lemma sorted_paths_length (dir : gmap string entry) :
  length (sorted_paths dir) = size dir.
Proof.
  rewrite (Permutation_length (sorted_paths_perm dir)), !length_fmap.
  apply length_map_to_list.
Qed.

(** X2.  The scratch directory is not emptied before the run
    ([exist_ok=True]), and the clip is made of every picture the directory
    holds at assembly time: pictures left there under other names, whose
    arrays have the shape of the frames (480 rows, 640 columns, 4 channels),
    are pictures of the clip [write_videofile] is called on, which then holds
    more pictures than there are snapshots; cleanup removes them with the
    frames. *)
Theorem leftover_pictures_in_video
    (savefig_raises : string → bool) (write_raises : list image → bool)
    (d : SimulationData) (sch : schedule) (w0 : World)
    (d0 : gmap string entry) (m : nat) :
  (0 < m)%nat →
  uniform m (trajectory d) →
  trajectory d ≠ [] →
  complete sch (length (trajectory d)) →
  savefig_quiet savefig_raises (length (trajectory d)) →
  (∀ frames, write_raises frames = false) →
  temp w0 = Some d0 →
  images_of_shape frame_shape d0 →
  ∃ imgs,
    main savefig_raises write_raises d sch w0 =
      ({| temp := None; mp4 := Some {| clip_frames := imgs; clip_fps := 10 |} |},
       Ok tt) ∧
    length imgs
      = size (frames_dir (box_length d) (snapshot_interval d) (trajectory d) ∪ d0) ∧
    ∀ name img,
      d0 !! name = Some (PngFile img) →
      (∀ i, (i < length (trajectory d))%nat → name ≠ frame_name i) →
      img ∈ imgs.
Proof.
  intros Hm Hu Hne Hc Hq Hwr Hd0 Hsz.
  set (dir := frames_dir (box_length d) (snapshot_interval d) (trajectory d) ∪ d0).
  assert (Hr : render_stage savefig_raises d sch w0
               = (set_temp (Some dir) w0,
                  Ok (frame_path <$> seq 0 (length (trajectory d))))).
  { rewrite (render_stage_ok _ _ _ _ m); try done.
    - by rewrite Hd0.
    - rewrite Hd0. simpl. intros i _ He.
      by destruct (Hsz _ _ He) as (img & ? & _). }
  assert (Hdsz : images_of_shape frame_shape dir).
  { intros name e [He|[_ He]]%lookup_union_Some_raw.
    - by apply (frames_dir_size (box_length d) (snapshot_interval d) (trajectory d) name).
    - by apply (Hsz name). }
  assert (Hdne : dir ≠ ∅).
  { intros He. apply Hne.
    apply (frames_dir_empty (box_length d) (snapshot_interval d)).
    apply map_eq. intros name. rewrite lookup_empty.
    apply (f_equal (.!! name)) in He. rewrite lookup_empty in He.
    by apply lookup_union_None in He as [? _]. }
  destruct (ImageSequenceClip_ok 10 (set_temp (Some dir) w0) dir _ eq_refl Hdne Hdsz)
    as (imgs & Hclip & Hall).
  exists imgs. split_and!.
  - unfold main, bind. rewrite Hr. unfold assemble_stage, bind. rewrite Hclip.
    unfold write_videofile. rewrite Hwr.
    rewrite (cleanup_files _ dir); [by destruct w0 | done |].
    intros name e He. by destruct (Hdsz _ _ He) as (img & -> & _).
  - by rewrite <- (Forall2_length _ _ _ Hall), sorted_paths_length.
  - intros name img Hn Hno.
    assert (Hin : os_path_join temp_dir name ∈ sorted_paths dir).
    { rewrite sorted_paths_perm. apply list_elem_of_fmap_2.
      apply list_elem_of_fmap. exists (name, PngFile img). split; [done|].
      apply elem_of_map_to_list. unfold dir. rewrite lookup_union_r; [done|].
      by apply frames_dir_not_frame. }
    apply list_elem_of_lookup_1 in Hin as [p Hp].
    destruct (Forall2_lookup_l _ _ _ _ _ Hall Hp) as (img' & Himg & name' & Hname & He).
    apply (inj (os_path_join _)) in Hname as <-.
    unfold dir in He. rewrite lookup_union_r in He by (by apply frames_dir_not_frame).
    rewrite Hn in He. injection He as <-. by eapply list_elem_of_lookup_2.
Qed.

Lemma leftover_pictures_in_video_witness :
  ∃ imgs,
    main never never scenario reversed leftover_scratch =
      ({| temp := None; mp4 := Some {| clip_frames := imgs; clip_fps := 10 |} |},
       Ok tt) ∧
    length imgs
      = size (frames_dir 10 10 (trajectory scenario)
              ∪ {[ "cover.png" := PngFile leftover_picture ]}) ∧
    ∀ name img,
      ({[ "cover.png" := PngFile leftover_picture ]} : gmap string entry) !! name
        = Some (PngFile img) →
      (∀ i, (i < 2)%nat → name ≠ frame_name i) →
      img ∈ imgs.
Proof.
  apply (leftover_pictures_in_video never never scenario reversed leftover_scratch _ 2).
  - lia.
  - repeat constructor.
  - discriminate.
  - apply perm_swap.
  - intros i _. reflexivity.
  - reflexivity.
  - reflexivity.
  - intros name e [<- <-]%lookup_singleton_Some. by eexists.
Defined.

Lemma imread_Ok_png (w : World) (dir : gmap string entry) (name : string) (img : image) :
  temp w = Some dir →
  (imread (os_path_join temp_dir name) w).2 = Ok img →
  dir !! name = Some (PngFile img).
Proof.
  intros Hd. unfold imread. rewrite in_temp_join, Hd.
  destruct (dir !! name) as [[]|]; simpl; congruence.
Qed.

Lemma read_all_raises (size : N * N * N) (paths : list string) (w : World) (p : string) :
  p ∈ paths → raised (imread p w).2 → raised (read_all size paths w).2.
Proof.
  induction paths as [|q paths IH]; intros Hp Hr; [by apply elem_of_nil in Hp|].
  cbn [read_all]. unfold bind.
  pose proof (imread_world q w) as Hw.
  destruct (imread q w) as [w' [img|e]] eqn:Eq; simpl in Hw; subst w'; [|done].
  case_decide; [|done]. unfold bind.
  apply elem_of_cons in Hp as [->|Hp]; [by rewrite Eq in Hr|].
  specialize (IH Hp Hr). by destruct (read_all size paths w) as [w' [imgs|e]].
Qed.

Lemma read_all_Ok_inv (size : N * N * N) (paths : list string) (w w' : World)
    (imgs : list image) (p : string) :
  read_all size paths w = (w', Ok imgs) → p ∈ paths →
  ∃ img, (imread p w).2 = Ok img.
Proof.
  intros Hr Hp. destruct (imread p w) as [w1 [img|e]] eqn:Ep; [by eexists|].
  exfalso. pose proof (read_all_raises size paths w p Hp) as Hraise.
  rewrite Ep, Hr in Hraise. by apply Hraise.
Qed.

Lemma path_in_sorted_paths (dir : gmap string entry) (name : string) (e : entry) :
  dir !! name = Some e → os_path_join temp_dir name ∈ sorted_paths dir.
Proof.
  intros He. rewrite sorted_paths_perm. apply list_elem_of_fmap_2.
  apply list_elem_of_fmap. exists (name, e). split; [done|].
  by apply elem_of_map_to_list.
Qed.

(** The clip cannot be made of a directory that holds something else than
    pictures. *)
Lemma ImageSequenceClip_raises (fps : nat) (w : World) (dir : gmap string entry)
    (name : string) (e : entry) :
  temp w = Some dir → dir !! name = Some e → (∀ img, e ≠ PngFile img) →
  raised (ImageSequenceClip fps w).2.
Proof.
  intros Hd He Hno.
  assert (Hbad : raised (imread (os_path_join temp_dir name) w).2).
  { unfold imread. rewrite in_temp_join, Hd, He. destruct e; [|done..].
    by destruct (Hno img). }
  pose proof (path_in_sorted_paths dir name e He) as Hin.
  unfold ImageSequenceClip, bind, os_listdir. rewrite Hd. fold (sorted_paths dir).
  destruct (sorted_paths dir) as [|first rest] eqn:Es; [done|].
  pose proof (imread_world first w) as Hw.
  destruct (imread first w) as [w' [img|e']] eqn:Ef; simpl in Hw; subst w'; [|done].
  pose proof (read_all_raises (img_shape img) (first :: rest) w _ Hin Hbad) as Hr.
  by destruct (read_all _ _ w) as [w' [imgs|e']].
Qed.

(** When the assembly returns, the scratch directory holds pictures only. *)
Lemma assemble_stage_returns (write_raises : list image → bool) (w w' : World) :
  assemble_stage write_raises w = (w', Ok tt) →
  ∃ dir, temp w' = Some dir ∧ map_Forall (λ _ e, e ≠ SubDir) dir.
Proof.
  intros Ha. pose proof (assemble_stage_temp write_raises w) as Ht.
  rewrite Ha in Ht. simpl in Ht. rewrite Ht.
  destruct (temp w) as [dir|] eqn:Hd.
  - exists dir. split; [done|]. intros name e He ->.
    pose proof (ImageSequenceClip_raises 10 w dir name SubDir Hd He) as Hr.
    unfold assemble_stage, bind in Ha.
    destruct (ImageSequenceClip 10 w) as [w1 [c|e]]; [|done].
    by apply Hr.
  - unfold assemble_stage, bind, ImageSequenceClip, bind, os_listdir in Ha.
    by rewrite Hd in Ha.
Qed.

(** X3.  Anything in the scratch directory that is not a picture (a file of
    another kind, a sub-directory), whoever put it there, makes the assembly
    raise: the run ends with that exception, no video is written and the
    scratch directory is left as the rendering stage left it. *)
Theorem foreign_entry_aborts_assembly
    (savefig_raises : string → bool) (write_raises : list image → bool)
    (d : SimulationData) (sch : schedule) (w0 w1 : World)
    (frame_paths : list string) (dir : gmap string entry) (name : string) (e : entry) :
  render_stage savefig_raises d sch w0 = (w1, Ok frame_paths) →
  temp w1 = Some dir →
  dir !! name = Some e →
  (∀ img, e ≠ PngFile img) →
  ∃ e', main savefig_raises write_raises d sch w0 = (w1, Raise e') ∧
        mp4 w1 = mp4 w0.
Proof.
  intros Hr Hd He Hno.
  pose proof (ImageSequenceClip_raises 10 w1 dir name e Hd He Hno) as Hraise.
  pose proof (ImageSequenceClip_world 10 w1) as Hw.
  destruct (ImageSequenceClip 10 w1) as [w2 [c|e']] eqn:Ec; [done|].
  simpl in Hw. subst w2. exists e'. split.
  - unfold main, bind. rewrite Hr. unfold assemble_stage, bind. by rewrite Ec.
  - destruct (render_stage_spec savefig_raises d sch w0) as (w1' & r & Hr' & Hv & _).
    rewrite Hr in Hr'. by injection Hr' as <- <-.
Qed.

Lemma foreign_entry_aborts_assembly_witness :
  ∃ e',
    main never never scenario reversed notes_scratch
      = (set_temp (Some (frames_dir 10 10 (trajectory scenario)
                         ∪ {[ "notes.txt" := OtherFile ]})) notes_scratch,
         Raise e') ∧
    mp4 (set_temp (Some (frames_dir 10 10 (trajectory scenario)
                         ∪ {[ "notes.txt" := OtherFile ]})) notes_scratch)
      = mp4 notes_scratch.
Proof.
  apply (foreign_entry_aborts_assembly never never scenario reversed notes_scratch
           (set_temp (Some (frames_dir 10 10 (trajectory scenario)
                            ∪ {[ "notes.txt" := OtherFile ]})) notes_scratch)
           (frame_path <$> seq 0 2)
           (frames_dir 10 10 (trajectory scenario) ∪ {[ "notes.txt" := OtherFile ]})
           "notes.txt" OtherFile).
  - apply (render_stage_ok never scenario reversed notes_scratch 2).
    + lia.
    + repeat constructor.
    + apply perm_swap.
    + intros i _. reflexivity.
    + intros i _. simpl. destruct i as [|[|i]]; by rewrite lookup_singleton_ne.
  - reflexivity.
  - apply lookup_union_Some_r; [|apply lookup_singleton_eq].
    apply map_disjoint_singleton_r. apply frames_dir_not_frame.
    intros i _. unfold frame_name, frame_file. discriminate.
  - discriminate.
Defined.

(** *** Pictures of another shape *)

(** Among pictures, one of another shape than the expected one makes the
    check raise. *)
Lemma read_all_mismatch (shp : N * N * N) (paths : list string) (w : World)
    (dir : gmap string entry) (name : string) (img : image) :
  temp w = Some dir →
  (∀ p, p ∈ paths → ∃ name' img', p = os_path_join temp_dir name' ∧
                                   dir !! name' = Some (PngFile img')) →
  os_path_join temp_dir name ∈ paths →
  dir !! name = Some (PngFile img) →
  img_shape img ≠ shp →
  read_all shp paths w = (w, Raise SizeMismatch).
Proof.
  intros Hd Hpics Hin Hn Hshp.
  induction paths as [|p paths IH]; [by apply elem_of_nil in Hin|].
  destruct (Hpics p) as (name' & img' & -> & Hn'); [by left|].
  cbn [read_all]. unfold bind. rewrite (imread_png w dir name' img') by done.
  case_decide as Hs; [|done]. unfold bind.
  apply elem_of_cons in Hin as [Heq|Hin].
  { apply (inj (os_path_join _)) in Heq as <-. rewrite Hn in Hn'.
    injection Hn' as <-. done. }
  rewrite IH; [done | | done]. intros q Hq. apply Hpics. by right.
Qed.

Lemma ImageSequenceClip_mismatch (fps : nat) (w : World) (dir : gmap string entry)
    (n1 n2 : string) (i1 i2 : image) :
  temp w = Some dir →
  pictures_only dir →
  dir !! n1 = Some (PngFile i1) →
  dir !! n2 = Some (PngFile i2) →
  img_shape i1 ≠ img_shape i2 →
  ImageSequenceClip fps w = (w, Raise SizeMismatch).
Proof.
  intros Hd Hpics H1 H2 Hne.
  assert (Hall : ∀ p, p ∈ sorted_paths dir →
            ∃ name' img', p = os_path_join temp_dir name' ∧
                          dir !! name' = Some (PngFile img')).
  { intros p (name' & e & -> & He)%sorted_paths_elem.
    destruct (Hpics _ _ He) as [img' ->]. eauto. }
  pose proof (path_in_sorted_paths dir n1 _ H1) as Hin1.
  pose proof (path_in_sorted_paths dir n2 _ H2) as Hin2.
  unfold ImageSequenceClip, bind, os_listdir. rewrite Hd. fold (sorted_paths dir).
  destruct (sorted_paths dir) as [|first rest] eqn:Es; [by apply elem_of_nil in Hin1|].
  destruct (Hall first) as (name0 & img0 & -> & H0); [by left|].
  rewrite (imread_png w dir name0 img0) by done.
  destruct (decide (img_shape i1 = img_shape img0)) as [Heq|Hneq].
  - by rewrite (read_all_mismatch _ _ w dir n2 i2) by (done || congruence).
  - by rewrite (read_all_mismatch _ _ w dir n1 i1).
Qed.

(** X15.  The clip compares the shapes of the arrays of the pictures, the
    number of channels included: when the scratch directory holds pictures
    only and one of them has another shape than the frames (another size, or
    640 by 480 without alpha channel), the assembly raises on the comparison;
    the run ends with that exception, no video is written and the scratch
    directory is left as the rendering stage left it. *)
Theorem other_shape_aborts_assembly
    (savefig_raises : string → bool) (write_raises : list image → bool)
    (d : SimulationData) (sch : schedule) (w0 w1 : World)
    (frame_paths : list string) (dir : gmap string entry) (name : string)
    (img : image) :
  render_stage savefig_raises d sch w0 = (w1, Ok frame_paths) →
  trajectory d ≠ [] →
  temp w1 = Some dir →
  pictures_only dir →
  dir !! name = Some (PngFile img) →
  img_shape img ≠ frame_shape →
  main savefig_raises write_raises d sch w0 = (w1, Raise SizeMismatch) ∧
  mp4 w1 = mp4 w0.
Proof.
  intros Hr Hne Hd Hpics Hn Hshp.
  destruct (render_stage_spec savefig_raises d sch w0) as (w1' & r & Hr' & Hv & Hok).
  rewrite Hr in Hr'. injection Hr' as <- <-. split; [|done].
  destruct (Hok _ eq_refl) as (_ & dir' & Hd' & Hfiles).
  rewrite Hd in Hd'. injection Hd' as <-.
  assert (H0 : (0 < length (trajectory d))%nat).
  { destruct (trajectory d); [done | simpl; lia]. }
  specialize (Hfiles 0%nat H0).
  unfold main, bind. rewrite Hr. unfold assemble_stage, bind.
  by rewrite (ImageSequenceClip_mismatch 10 w1 dir _ _ _ _ Hd Hpics Hn Hfiles).
Qed.

Lemma other_shape_aborts_assembly_witness :
  main never never scenario reversed rgb_scratch
    = (set_temp (Some (frames_dir 10 10 (trajectory scenario)
                       ∪ {[ "cover.png" := PngFile rgb_picture ]})) rgb_scratch,
       Raise SizeMismatch) ∧
  mp4 (set_temp (Some (frames_dir 10 10 (trajectory scenario)
                       ∪ {[ "cover.png" := PngFile rgb_picture ]})) rgb_scratch)
    = mp4 rgb_scratch.
Proof.
  apply (other_shape_aborts_assembly never never scenario reversed rgb_scratch
           (set_temp (Some (frames_dir 10 10 (trajectory scenario)
                            ∪ {[ "cover.png" := PngFile rgb_picture ]})) rgb_scratch)
           (frame_path <$> seq 0 2)
           (frames_dir 10 10 (trajectory scenario)
            ∪ {[ "cover.png" := PngFile rgb_picture ]})
           "cover.png" rgb_picture).
  - apply (render_stage_ok never scenario reversed rgb_scratch 2).
    + lia.
    + repeat constructor.
    + apply perm_swap.
    + intros i _. reflexivity.
    + intros i _. simpl. destruct i as [|[|i]]; by rewrite lookup_singleton_ne.
  - discriminate.
  - reflexivity.
  - intros n e [He|[_ He]]%lookup_union_Some_raw.
    + apply frames_dir_lookup_inv in He as (i & _ & _ & ->). by eexists.
    + apply lookup_singleton_Some in He as [_ <-]. by eexists.
  - apply lookup_union_Some_r; [|apply lookup_singleton_eq].
    apply map_disjoint_singleton_r. apply frames_dir_not_frame.
    intros i _. unfold frame_name, frame_file. discriminate.
  - discriminate.
Defined.

(** *** How a run ends *)

(** The three ways a run ends: the rendering stage raises; the assembly
    raises, leaving the world as the rendering stage left it; or both return,
    and then cleanup returns too. *)
Lemma main_cases (savefig_raises : string → bool) (write_raises : list image → bool)
    (d : SimulationData) (sch : schedule) (w0 : World) :
  ∃ w1 r1,
    render_stage savefig_raises d sch w0 = (w1, r1) ∧
    mp4 w1 = mp4 w0 ∧
    match r1 with
    | Raise e => main savefig_raises write_raises d sch w0 = (w1, Raise e)
    | Ok _ =>
        (∃ e, main savefig_raises write_raises d sch w0 = (w1, Raise e)) ∨
        (∃ w2, assemble_stage write_raises w1 = (w2, Ok tt) ∧
               main savefig_raises write_raises d sch w0 = (set_temp None w2, Ok tt))
    end.
Proof.
  destruct (render_stage_spec savefig_raises d sch w0) as (w1 & r1 & Hr & Hv & _).
  exists w1, r1. split_and!; [done..|].
  destruct r1 as [paths|e]; [|by unfold main, bind; rewrite Hr].
  destruct (assemble_stage write_raises w1) as [w2 [[]|e]] eqn:Ea.
  - right. exists w2. split; [done|].
    destruct (assemble_stage_returns _ _ _ Ea) as (dir & Hd & Hfiles).
    unfold main, bind. rewrite Hr, Ea. by apply (cleanup_files w2 dir).
  - left. exists e. apply assemble_stage_raises in Ea as Hw. subst w2.
    unfold main, bind. by rewrite Hr, Ea.
Qed.

(** X13.  With an encoder that does not fail, a run that ends with an
    exception has raised before [write_videofile] was called: the output file
    is as it was before the run.  In particular cleanup never fails after the
    video was written.  (What a failing encoder leaves of the output file is
    outside the model, hence the hypothesis.) *)
Theorem raised_run_writes_no_video
    (savefig_raises : string → bool) (write_raises : list image → bool)
    (d : SimulationData) (sch : schedule) (w0 w' : World) (e : exn) :
  (∀ frames, write_raises frames = false) →
  main savefig_raises write_raises d sch w0 = (w', Raise e) →
  mp4 w' = mp4 w0.
Proof.
  intros _ Hm.
  destruct (main_cases savefig_raises write_raises d sch w0)
    as (w1 & r1 & _ & Hv & Hcases).
  destruct r1 as [paths|e1].
  - destruct Hcases as [[e2 He2]|(w2 & _ & Hok)]; rewrite Hm in *; [|done].
    by injection He2 as -> _.
  - rewrite Hm in Hcases. by injection Hcases as -> _.
Qed.

Lemma raised_run_writes_no_video_witness :
  mp4 (main second_frame_fails never scenario reversed no_scratch).1 = mp4 no_scratch.
Proof.
  apply (raised_run_writes_no_video second_frame_fails never scenario reversed
           no_scratch _ OSError).
  - reflexivity.
  - vm_compute. reflexivity.
Defined.

Lemma render_stage_temp (savefig_raises : string → bool) (d : SimulationData)
    (sch : schedule) (w0 : World) :
  rectangular (trajectory d) = true →
  is_Some (temp (render_stage savefig_raises d sch w0).1).
Proof.
  intros Hrect. unfold render_stage, bind, lift, np_array. rewrite Hrect.
  rewrite makedirs_spec. unfold pool_imap, run_tasks. simpl.
  pose proof (run_tasks_inv savefig_raises (box_length d) (snapshot_interval d)
                (trajectory d) sch (mp4 w0) (completion sch) _
                (pool_inv_start _ _ _ (set_temp (Some (default ∅ (temp w0))) w0) _ eq_refl))
    as (_ & _ & dir & Hdir & _).
  by rewrite Hdir.
Qed.

(** X14.  The scratch directory is removed by the runs that return and only
    by them: once the trajectory has been converted, a run that ends with an
    exception leaves the scratch directory in place, and a run that returns
    leaves none. *)
Theorem scratch_removed_iff_returned
    (savefig_raises : string → bool) (write_raises : list image → bool)
    (d : SimulationData) (sch : schedule) (w0 : World) :
  rectangular (trajectory d) = true →
  match (main savefig_raises write_raises d sch w0).2 with
  | Ok _ => temp (main savefig_raises write_raises d sch w0).1 = None
  | Raise _ => is_Some (temp (main savefig_raises write_raises d sch w0).1)
  end.
Proof.
  intros Hrect.
  pose proof (render_stage_temp savefig_raises d sch w0 Hrect) as Ht.
  destruct (main_cases savefig_raises write_raises d sch w0)
    as (w1 & r1 & Hr & _ & Hcases).
  rewrite Hr in Ht. simpl in Ht.
  destruct r1 as [paths|e1]; [|by rewrite Hcases].
  destruct Hcases as [[e2 ->]|(w2 & _ & ->)]; done.
Qed.

Lemma scratch_removed_iff_returned_witness :
  temp (main never never scenario reversed no_scratch).1 = None ∧
  is_Some (temp (main second_frame_fails never scenario reversed no_scratch).1).
Proof.
  split.
  - apply (scratch_removed_iff_returned never never scenario reversed no_scratch).
    reflexivity.
  - apply (scratch_removed_iff_returned second_frame_fails never scenario reversed
             no_scratch).
    reflexivity.
Defined.

(** *** Cleanup on a sub-directory *)





(** *** Without snapshots *)

Lemma run_tasks_no_args (savefig_raises : string → bool) (L : Q)
    (SNAPSHOT_INTERVAL : Z) (sch : schedule) (o : list nat) (st : pool_state) :
  foldl (run_task savefig_raises L SNAPSHOT_INTERVAL [] sch plt_figure) st o = st.
Proof. induction o as [|i o IH]; [done|]. cbn [foldl]. exact IH. Qed.

(** X4.  On a trajectory without snapshots the pool has
    nothing to do, whatever the schedule, and the clip cannot be made of an
    empty directory: the run creates the scratch directory and ends with
    [IndexError], leaving the empty directory behind and no video. *)
Theorem no_snapshots_index_error
    (savefig_raises : string → bool) (write_raises : list image → bool)
    (d : SimulationData) (sch : schedule) (w0 : World) :
  trajectory d = [] →
  fresh w0 →
  main savefig_raises write_raises d sch w0 = (set_temp (Some ∅) w0, Raise IndexError).
Proof.
  intros Ht Hf. unfold main, bind, render_stage, bind, lift. rewrite Ht.
  cbn [np_array rectangular fmap list_fmap concat all_equal andb imap].
  rewrite makedirs_spec. unfold fresh in Hf. rewrite Hf.
  unfold pool_imap, run_tasks. rewrite run_tasks_no_args. reflexivity.
Qed.

Lemma no_snapshots_index_error_witness :
  main never never no_snapshots reversed no_scratch
    = (set_temp (Some ∅) no_scratch, Raise IndexError).
Proof. apply no_snapshots_index_error; reflexivity. Defined.

(** *** Which exception is reported *)

(** X11.  When several invocations raise, the run ends with the exception
    of the failed snapshot of smallest index, not with that of the invocation
    that failed first in time: the results are taken in the order of the
    tasks. *)
Theorem first_failed_snapshot_reported
    (savefig_raises : string → bool) (write_raises : list image → bool)
    (d : SimulationData) (sch : schedule) (w0 : World) (i : nat) (e : exn) :
  invocation_outcomes savefig_raises d sch w0 !! i = Some (Raise e) →
  (∀ j, (j < i)%nat →
     ∃ p, invocation_outcomes savefig_raises d sch w0 !! j = Some (Ok p)) →
  ∃ w1, main savefig_raises write_raises d sch w0 = (w1, Raise e).
Proof.
  unfold invocation_outcomes, main, bind, render_stage, bind, lift, np_array.
  destruct (rectangular (trajectory d)); [|by rewrite lookup_empty].
  rewrite makedirs_spec. unfold pool_imap, run_tasks. simpl. intros Hi Hbefore.
  pose proof (run_tasks_inv savefig_raises (box_length d) (snapshot_interval d)
                (trajectory d) sch (mp4 w0) (completion sch) _
                (pool_inv_start _ _ _ (set_temp (Some (default ∅ (temp w0))) w0) _ eq_refl))
    as (_ & _ & dir & _ & Hres).
  destruct (Hres _ _ Hi) as [Hlt _]. rewrite length_imap.
  replace (length (trajectory d)) with (i + S (length (trajectory d) - S i))%nat by lia.
  rewrite seq_app. cbn [seq]. rewrite (gather_first _ _ _ i e); [by eexists | | done].
  intros j Hj%elem_of_seq. apply Hbefore. lia.
Qed.

Lemma first_failed_snapshot_reported_witness :
  invocation_outcomes first_frame_fails scenario reversed blocked_scratch !! 1%nat
    = Some (Raise IsADirectoryError) ∧
  ∃ w1, main first_frame_fails never scenario reversed blocked_scratch
          = (w1, Raise OSError).
Proof.
  split; [vm_compute; reflexivity|].
  apply (first_failed_snapshot_reported first_frame_fails never scenario reversed
           blocked_scratch 0 OSError).
  - vm_compute. reflexivity.
  - intros j Hj. lia.
Defined.
End MoreSrcSim.

(** ** Further properties of [src/video/sim.py] *)

Section MoreVideoSim.
Import VideoSim.

(** X9.  On a rectangular, non-empty trajectory whose snapshots can be
    sliced, the sequential script returns, and the clip [write_videofile] is
    called on, from which the video is encoded, is made of exactly one frame
    per snapshot, in the order of the snapshots, at 10 frames per second; the
    frame of snapshot [i] shows the axis labels, the limits of the box, the
    points of the snapshot and the title of index [i].  (Which frames of the
    clip the encoder samples into the file is outside the model.) *)
Theorem sequential_video_in_snapshot_order
    (write_raises : list ndarray → bool) (d : SimulationData)
    (mp4 : option (clip ndarray)) :
  rectangular (trajectory d) = true →
  Forall sliceable (trajectory d) →
  trajectory d ≠ [] →
  write_raises (imap (seq_frame (box_length d) (snapshot_interval d)
                                (canvas_w plt_figure) (canvas_h plt_figure))
                     (trajectory d)) = false →
  main write_raises d mp4 =
    (Some {| clip_frames :=
               imap (seq_frame (box_length d) (snapshot_interval d)
                               (canvas_w plt_figure) (canvas_h plt_figure))
                    (trajectory d);
             clip_fps := 10 |},
     Ok tt).
Proof.
  intros Hrect Hs Hne Hwr.
  destruct (render_loop_returns (box_length d) (snapshot_interval d) (trajectory d) 0
              (setup_figure (box_length d)) [] Hs) as (f' & out & Hloop).
  assert (Hr : render_frames d = Ok out).
  { unfold render_frames, np_array. by rewrite Hrect, Hloop. }
  pose proof (render_frames_spec d out Hr) as ->.
  unfold main. rewrite Hr.
  assert (Hall : Forall (λ a, shape a = [canvas_h plt_figure; canvas_w plt_figure; 3%N])
                   (imap (seq_frame (box_length d) (snapshot_interval d)
                                    (canvas_w plt_figure) (canvas_h plt_figure))
                         (trajectory d))).
  { apply Forall_forall. intros a (j & Hj)%list_elem_of_lookup_1.
    rewrite list_lookup_imap in Hj. destruct (trajectory d !! j); [|done].
    by injection Hj as <-. }
  pose proof (ImageSequenceClip_same_shape _ 10 _ Hall) as Hsz.
  unfold ImageSequenceClip in *.
  destruct (imap _ (trajectory d)) as [|first rest] eqn:Ef.
  { apply (f_equal length) in Ef. rewrite length_imap in Ef.
    destruct (trajectory d); [done | discriminate]. }
  destruct (forallb _ _); [|done]. cbn [clip_frames]. by rewrite Hwr.
Qed.

Lemma sequential_video_in_snapshot_order_witness :
  main never scenario None =
    (Some {| clip_frames :=
               [seq_frame 10 10 640 480 0 [[1; 1; 1]; [2; 2; 2]]%Q;
                seq_frame 10 10 640 480 1 [[3; 3; 3]; [4; 4; 4]]%Q];
             clip_fps := 10 |},
     Ok tt).
Proof.
  apply (sequential_video_in_snapshot_order never scenario None).
  - reflexivity.
  - repeat constructor; discriminate.
  - discriminate.
  - reflexivity.
Defined.

Lemma render_loop_index_error (L : Q) (SNAPSHOT_INTERVAL : Z)
    (rest : list (list (list Q))) (i : nat) (f : figure) (frames : list ndarray) :
  Exists (λ s, ¬ sliceable s) rest →
  (render_loop L SNAPSHOT_INTERVAL i rest f frames).2 = Raise IndexError.
Proof.
  revert i f frames. induction rest as [|positions rest IH]; intros i f frames Hex;
    [by apply Exists_nil in Hex|].
  cbn [render_loop].
  destruct (column 0 positions) as [xs|e0] eqn:E0;
    [|by rewrite (column_raises _ _ _ E0)].
  destruct (column 1 positions) as [ys|e1] eqn:E1;
    [|by rewrite (column_raises _ _ _ E1)].
  destruct (column 2 positions) as [zs|e2] eqn:E2;
    [|by rewrite (column_raises _ _ _ E2)].
  cbn [fig_canvas_get_width_height]. rewrite reshape_canvas. apply IH.
  apply Exists_cons in Hex as [Hns|Hex]; [|done].
  exfalso. apply Hns. apply column_Ok_rows in E2 as [Hne Hrows].
  split; [done|]. eapply Forall_impl; [exact Hrows|]. simpl. lia.
Qed.

(** X10.  If a snapshot of a rectangular trajectory cannot be sliced (no
    atom, or fewer than three coordinates per atom), the sequential script
    ends with [IndexError] and leaves the output file as it was; the frames
    drawn before are lost. *)
Theorem sequential_index_error
    (write_raises : list ndarray → bool) (d : SimulationData)
    (mp4 : option (clip ndarray)) :
  rectangular (trajectory d) = true →
  Exists (λ s, ¬ sliceable s) (trajectory d) →
  main write_raises d mp4 = (mp4, Raise IndexError).
Proof.
  intros Hrect Hex. unfold main, render_frames, np_array. rewrite Hrect.
  by rewrite (render_loop_index_error _ _ _ _ _ _ Hex).
Qed.

Lemma sequential_index_error_witness :
  main never flat_scenario None = (None, Raise IndexError).
Proof.
  apply (sequential_index_error never flat_scenario None).
  - reflexivity.
  - apply Exists_cons_hd. intros [_ Hrows].
    apply Forall_cons in Hrows as [Hlen _]. simpl in Hlen. lia.
Defined.

(** X12.  On a trajectory without snapshots the loop
    returns no frame and the clip cannot be made of an empty list: the
    script ends with [IndexError] and leaves the output file as it was. *)
Theorem sequential_no_snapshots (write_raises : list ndarray → bool)
    (d : SimulationData) (mp4 : option (clip ndarray)) :
  trajectory d = [] →
  main write_raises d mp4 = (mp4, Raise IndexError).
Proof.
  intros Ht. unfold main, render_frames. by rewrite Ht.
Qed.

Lemma sequential_no_snapshots_witness :
  main never no_snapshots None = (None, Raise IndexError).
Proof. by apply sequential_no_snapshots. Defined.
End MoreVideoSim.
